(** * smart-turn-go: the Whisper log-mel feature extractor, the configuration
    validator and the model/runtime resolver

    A shallow embedding of [whisper_mel.go], [config.go] and the [resolver]
    package, with the properties of the specification that concern them.

    Numbers.  Go's [float32] and [float64] samples are embedded as real
    numbers: arithmetic is exact, conversions between the two widths are the
    identity, and [math.Cos], [math.Sin], [math.Sqrt], [math.Log10] and
    [math.Pow] are the real functions.  Go's [int] lengths and indices are
    [nat] (none of them can overflow here).  The configuration's [float32]
    fields are only ever compared, so there they are embedded as IEEE values
    with their not-a-number and infinities.

    Slices are lists; an indexed store [s[i] = v] is stdpp's [<[i:=v]> s] and
    an indexed load [s[i]] is [idx s i].  Every load and store of the source
    is within bounds, which is where Go would otherwise panic. *)

From Stdlib Require Import Reals Lra Lia ZArith List QArith Qreals.
From Stdlib Require Import Floats.SpecFloat.
From stdpp Require Import base list strings gmap.

#[local] Open Scope R_scope.

(** ** Loops and loads *)

#[global] Instance Rlt_decision (x y : R) : Decision (x < y) := Rlt_dec x y.
#[global] Instance Rle_decision (x y : R) : Decision (x <= y) := Rle_dec x y.

(** [s[i]] *)
Definition idx (s : list R) (i : nat) : R := nth i s 0.

(** [for i := 0; i < n; i++ { body }] as a state transformer *)
Definition for_range {S : Type} (n : nat) (body : nat -> S -> S) (s : S) : S :=
  fold_left (fun s i => body i s) (seq 0 n) s.

(** [for t := t0; t < t0 + n; t++ { if stop t { break }; body }] *)
Fixpoint for_break {S : Type} (n t : nat) (stop : nat -> bool)
    (body : nat -> S -> S) (s : S) : S :=
  match n with
  | O => s
  | Datatypes.S n' =>
      if stop t then s else for_break n' (Datatypes.S t) stop body (body t s)
  end.

(** ** whisper_mel.go *)

Definition whisperNFFT : nat := 400.
Definition whisperHop : nat := 160.
Definition whisperNMels : nat := 80.
Definition whisper8sSamples : nat := Z.to_nat 128000.
Definition whisper8sFrames : nat := 800.

Definition log10 (x : R) : R := ln x / ln 10.

Definition hzToMel (hz : R) : R := 2595 * log10 (1 + hz / 700).

Definition melToHz (mel : R) : R := 700 * (Rpower 10 (mel / 2595) - 1).

(** [getMelFilterbank].  The source keeps the table it computes in the
    package variable [cachedMelFilters] and returns it again when its length
    is [nMels*nBins]; the table depends on [nMels] and [nBins] only, so the
    cached and the recomputed value are the same list and the embedding
    computes it. *)
Definition getMelFilterbank (nMels nBins : nat) : list R :=
  let sampleRate := 16000 in
  let lowFreq := 0 in
  let highFreq := 8000 in
  let lowMel := hzToMel lowFreq in
  let highMel := hzToMel highFreq in
  let melPoints :=
    for_range (nMels + 2)
      (fun i mp => <[i := lowMel + (highMel - lowMel) * INR i / INR (nMels + 1)]> mp)
      (replicate (nMels + 2) 0) in
  let hzPoints :=
    for_range (length melPoints)
      (fun i hp => <[i := melToHz (idx melPoints i)]> hp)
      (replicate (nMels + 2) 0) in
  let binFreq :=
    for_range nBins
      (fun k bf => <[k := INR k * sampleRate / INR (2 * (nBins - 1))]> bf)
      (replicate nBins 0) in
  for_range nMels
    (fun m filters =>
       let left := idx hzPoints m in
       let center := idx hzPoints (m + 1) in
       let right := idx hzPoints (m + 2) in
       for_range nBins
         (fun k filters =>
            let f := idx binFreq k in
            let v :=
              if bool_decide (left <= f) && bool_decide (f <= center)
              then (f - left) / (center - left)
              else if bool_decide (center < f) && bool_decide (f <= right)
              then (right - f) / (right - center)
              else 0 in
            <[(m * nBins + k)%nat := v]> filters)
         filters)
    (replicate (nMels * nBins) 0).

(** [realFFTPower]: [buf] holds [n] complex numbers, real part at [2i]. *)
Definition realFFTPower (buf : list R) (n : nat) : list R :=
  let nOut := (n / 2 + 1)%nat in
  for_range nOut
    (fun k power =>
       let '(re, im) :=
         for_range n
           (fun i '(re, im) =>
              let angle := -2 * PI * INR k * INR i / INR n in
              (re + idx buf (i * 2) * cos angle,
               im + idx buf (i * 2) * sin angle))
           (0, 0) in
       <[k := (re * re + im * im) / INR (n * n)]> power)
    (replicate nOut 0).

(** The Hann window of [computeWhisperMelFromPadded]. *)
Definition hannWindow : list R :=
  for_range whisperNFFT
    (fun i window =>
       <[i := 0.5 * (1 - cos (2 * PI * INR i / INR whisperNFFT))]> window)
    (replicate whisperNFFT 0).

(** The body of the frame loop: frame [t] is windowed into [fftBuf], its
    power spectrum goes through the filters, and column [t] of [mel]
    receives the 80 logarithms.  [fftBuf] is the one buffer of the source,
    handed from frame to frame. *)
Definition frameBody (padded window filters : list R) (nBins : nat)
    (t : nat) (st : list R * list R) : list R * list R :=
  let '(mel, fftBuf) := st in
  let offset := (t * whisperHop)%nat in
  let fftBuf :=
    for_range whisperNFFT
      (fun i fftBuf =>
         let fftBuf := <[(i * 2)%nat := idx padded (offset + i) * idx window i]> fftBuf in
         <[(i * 2 + 1)%nat := 0]> fftBuf)
      fftBuf in
  let power := realFFTPower fftBuf whisperNFFT in
  let mel :=
    for_range whisperNMels
      (fun m mel =>
         let v :=
           for_range nBins
             (fun k v => v + idx filters (m * nBins + k) * idx power k) 0 in
         let v := if decide (v < 1e-10) then 1e-10 else v in
         <[(m * whisper8sFrames + t)%nat := log10 v]> mel)
      mel in
  (mel, fftBuf).

(** Lines 69-98 of [computeWhisperMelFromPadded]: the log-mel matrix before
    the dynamic-range compression. *)
Definition logMelMatrix (padded : list R) : list R :=
  let nBins := (whisperNFFT / 2 + 1)%nat in
  let mel := replicate (whisperNMels * whisper8sFrames) 0 in
  let window := hannWindow in
  let filters := getMelFilterbank whisperNMels nBins in
  let fftBuf := replicate (whisperNFFT * 2) 0 in
  fst (for_break whisper8sFrames 0
         (fun t => (length padded <? t * whisperHop + whisperNFFT)%nat)
         (frameBody padded window filters nBins)
         (mel, fftBuf)).

(** [maxVal] after the first loop of the compression. *)
Definition maxValOf (mel : list R) : R :=
  fold_left (fun maxVal v => if decide (maxVal < v) then v else maxVal)
    mel (-1e30).

(** Lines 102-114: both loops of the compression; the second one rewrites
    every [mel[i]] from its own old value, which is a [map]. *)
Definition compress (mel : list R) : list R :=
  let maxVal := maxValOf mel in
  let floor := maxVal - 8.0 in
  map (fun v => let v := if decide (v < floor) then floor else v in
                (v + 4.0) / 4.0) mel.

Definition computeWhisperMelFromPadded (padded : list R) : list R :=
  if negb (length padded =? whisper8sSamples)%nat then []
  else compress (logMelMatrix padded).

(** Lines 28-59 of [computeWhisperMel]: the normalised, right-aligned
    buffer handed to [computeWhisperMelFromPadded]. *)
Definition paddedBuffer (audio : list R) : list R :=
  let audio :=
    if (whisper8sSamples <? length audio)%nat
    then drop (length audio - whisper8sSamples) audio
    else audio in
  let mean := fold_left (fun mean v => mean + v) audio 0 in
  let mean := mean / INR (length audio) in
  let variance :=
    fold_left (fun variance v => let d := v - mean in variance + d * d) audio 0 in
  let variance := variance / INR (length audio) in
  let variance := if decide (variance < 1e-7) then 1e-7 else variance in
  let scale := 1.0 / sqrt variance in
  let padded := replicate whisper8sSamples 0 in
  if (whisper8sSamples <=? length audio)%nat
  then
    for_range whisper8sSamples
      (fun i padded => <[i := (idx audio i - mean) * scale]> padded) padded
  else
    let offset := (whisper8sSamples - length audio)%nat in
    for_range (length audio)
      (fun i padded => <[(offset + i)%nat := (idx audio i - mean) * scale]> padded)
      padded.

Definition computeWhisperMel (audio : list R) : list R :=
  if (length audio =? 0)%nat then []
  else computeWhisperMelFromPadded (paddedBuffer audio).


(** Sums, as the accumulation loops compute them. *)
Fixpoint sumN (n : nat) (f : nat -> R) : R :=
  match n with
  | O => 0
  | Datatypes.S n' => sumN n' f + f n'
  end.


(** ** What the loops of the feature extractor compute: closed forms *)

Definition hann (i : nat) : R :=
  0.5 * (1 - cos (2 * PI * INR i / INR whisperNFFT)).

(** bin [k] of the power spectrum of the [n] samples [x]: the squared
    magnitude of the discrete Fourier transform, over [n*n] *)
Definition dftPower (n : nat) (x : nat -> R) (k : nat) : R :=
  let re := sumN n (fun i => x i * cos (-2 * PI * INR k * INR i / INR n)) in
  let im := sumN n (fun i => x i * sin (-2 * PI * INR k * INR i / INR n)) in
  (re * re + im * im) / INR (n * n).

Definition melPoint (nMels i : nat) : R :=
  hzToMel 0 + (hzToMel 8000 - hzToMel 0) * INR i / INR (nMels + 1).

Definition hzPoint (nMels i : nat) : R := melToHz (melPoint nMels i).

Definition binFreq (nBins k : nat) : R := INR k * 16000 / INR (2 * (nBins - 1)).

(** the triangle of band [m] at bin [k] *)
Definition melWeight (nMels nBins m k : nat) : R :=
  let left := hzPoint nMels m in
  let center := hzPoint nMels (m + 1) in
  let right := hzPoint nMels (m + 2) in
  let f := binFreq nBins k in
  if bool_decide (left <= f) && bool_decide (f <= center)
  then (f - left) / (center - left)
  else if bool_decide (center < f) && bool_decide (f <= right)
  then (right - f) / (right - center)
  else 0.

(** sample [i] of the windowed frame [t] *)
Definition frameSample (padded : list R) (t i : nat) : R :=
  idx padded (t * whisperHop + i) * hann i.

(** the energy of frame [t] in band [m] *)
Definition melEnergy (padded : list R) (t m : nat) : R :=
  sumN (whisperNFFT / 2 + 1)
    (fun k => melWeight whisperNMels (whisperNFFT / 2 + 1) m k
              * dftPower whisperNFFT (frameSample padded t) k).

(** the entry the frame loop stores for frame [t] and band [m] *)
Definition logMelEntry (padded : list R) (t m : nat) : R :=
  let v := melEnergy padded t m in
  log10 (if decide (v < 1e-10) then 1e-10 else v).

(** the number of frames whose 400 samples lie within the buffer *)
Definition completeFrames : nat := 798.


(** ** Normalisation, in the words of the specification *)

Definition Rsum (l : list R) : R := fold_right Rplus 0 l.

Definition mean (l : list R) : R := Rsum l / INR (length l).

(** population variance *)
Definition pvariance (l : list R) : R :=
  Rsum (map (fun v => (v - mean l) * (v - mean l)) l) / INR (length l).

(** at most the final 128,000 samples *)
Definition lastWindow (audio : list R) : list R :=
  drop (length audio - whisper8sSamples) audio.

(** the samples minus their mean, over the square root of their variance,
    the variance being at least 1e-7 *)
Definition normalise (a : list R) : list R :=
  map (fun v => (v - mean a) / sqrt (Rmax (pvariance a) 1e-7)) a.

(** ** An input for the range of the output: a click train

    Eight seconds in which sample [n] is 1 when [n mod 800 = 40], -1 when
    [n mod 800 = 440], and 0 otherwise: 160 periods of 800 samples, with
    one click in every window of 400 samples. *)














(** ** config.go *)

Module Cfg.

#[local] Open Scope string_scope.
#[local] Open Scope Z_scope.

(** A [float32] is an IEEE binary32 value, in the representation of the
    Standard Library's [SpecFloat]: a signed zero, a signed infinity, the
    not-a-number, or [(-1)^s * m * 2^e] with a 24-bit mantissa.  Go's [<],
    [<=] and [>] are [SFltb], [SFleb] and [SFltb] with the operands
    swapped; each is false as soon as one operand is the not-a-number. *)
Definition float32 : Type := spec_float.

Definition f32_0 : float32 := S754_zero false.
Definition f32_1 : float32 := S754_finite false 8388608 (-23).

Definition RequiredSampleRate : Z := 16000.
Definition RequiredChunkSize : Z := 512.

Record Config : Type := mkConfig {
  SampleRate : Z;
  ChunkSize : Z;
  VadThreshold : float32;
  VadPreSpeechMs : Z;
  VadStopMs : Z;
  TurnMaxDurationSeconds : float32;
  TurnSegmentEmitMs : Z;
  TurnThreshold : float32;
  TurnTimeoutMs : Z;
  SileroVADModelPath : string;
  SmartTurnModelPath : string
}.

(** What [os.Stat] answers for a path: no error, an error for which
    [os.IsNotExist] holds, or another error, with its text. *)
Inductive StatResult : Type :=
| StatOk
| StatNotExist
| StatError (err : string).

(** [validateConfig]; the answer is the text of the error, [None] for
    [nil].  The file system enters through [stat]. *)
Definition validateConfig (stat : string -> StatResult) (cfg : Config)
    : option string :=
  if negb (SampleRate cfg =? RequiredSampleRate) then
    Some "config: SampleRate must be 16000"
  else if negb (ChunkSize cfg =? RequiredChunkSize) then
    Some "config: ChunkSize must be 512"
  else if SFltb (VadThreshold cfg) f32_0 || SFltb f32_1 (VadThreshold cfg) then
    Some "config: VadThreshold must be in [0, 1]"
  else if VadPreSpeechMs cfg <? 0 then
    Some "config: VadPreSpeechMs must be >= 0"
  else if VadStopMs cfg <=? 0 then
    Some "config: VadStopMs must be > 0"
  else if SFleb (TurnMaxDurationSeconds cfg) f32_0 then
    Some "config: TurnMaxDurationSeconds must be > 0"
  else if TurnSegmentEmitMs cfg <=? 0 then
    Some "config: TurnSegmentEmitMs must be > 0"
  else if SFltb (TurnThreshold cfg) f32_0 || SFltb f32_1 (TurnThreshold cfg) then
    Some "config: TurnThreshold must be in [0, 1]"
  else if TurnTimeoutMs cfg <=? 0 then
    Some "config: TurnTimeoutMs must be > 0"
  else if bool_decide (SileroVADModelPath cfg = "") then
    Some "config: SileroVADModelPath is required"
  else if bool_decide (SmartTurnModelPath cfg = "") then
    Some "config: SmartTurnModelPath is required"
  else
    match stat (SileroVADModelPath cfg) with
    | StatNotExist =>
        Some ("config: Silero VAD model file not found: " ++ SileroVADModelPath cfg)%string
    | StatError err => Some err
    | StatOk =>
        match stat (SmartTurnModelPath cfg) with
        | StatNotExist =>
            Some ("config: Smart-Turn model file not found: " ++ SmartTurnModelPath cfg)%string
        | StatError err => Some err
        | StatOk => None
        end
    end.

(** *** The invariants, in the words and the order of the specification *)

Inductive Invariant : Type :=
| InvSampleRate | InvChunkSize | InvVadThreshold | InvPreSpeech
| InvStopSilence | InvMaxDuration | InvEmitCadence | InvTurnThreshold
| InvTimeout | InvSileroPath | InvSmartTurnPath | InvSileroFile
| InvSmartTurnFile.

Definition checkOrder : list Invariant :=
  [InvSampleRate; InvChunkSize; InvVadThreshold; InvPreSpeech;
   InvStopSilence; InvMaxDuration; InvEmitCadence; InvTurnThreshold;
   InvTimeout; InvSileroPath; InvSmartTurnPath; InvSileroFile;
   InvSmartTurnFile].

Definition inUnitInterval (x : float32) : bool := SFleb f32_0 x && SFleb x f32_1.

Definition positive32 (x : float32) : bool := SFltb f32_0 x.

Definition statOk (r : StatResult) : bool :=
  match r with StatOk => true | _ => false end.

Definition holds (stat : string -> StatResult) (cfg : Config) (i : Invariant)
    : bool :=
  match i with
  | InvSampleRate => SampleRate cfg =? 16000
  | InvChunkSize => ChunkSize cfg =? 512
  | InvVadThreshold => inUnitInterval (VadThreshold cfg)
  | InvPreSpeech => 0 <=? VadPreSpeechMs cfg
  | InvStopSilence => 0 <? VadStopMs cfg
  | InvMaxDuration => positive32 (TurnMaxDurationSeconds cfg)
  | InvEmitCadence => 0 <? TurnSegmentEmitMs cfg
  | InvTurnThreshold => inUnitInterval (TurnThreshold cfg)
  | InvTimeout => 0 <? TurnTimeoutMs cfg
  | InvSileroPath => negb (bool_decide (SileroVADModelPath cfg = ""))
  | InvSmartTurnPath => negb (bool_decide (SmartTurnModelPath cfg = ""))
  | InvSileroFile => statOk (stat (SileroVADModelPath cfg))
  | InvSmartTurnFile => statOk (stat (SmartTurnModelPath cfg))
  end.

(** the first invariant of the list that does not hold *)
Definition firstViolated (stat : string -> StatResult) (cfg : Config)
    : option Invariant :=
  List.find (fun i => negb (holds stat cfg i)) checkOrder.

Definition statText (path notFound : string) (r : StatResult) : string :=
  match r with
  | StatError err => err
  | _ => (notFound ++ path)%string
  end.

(** the error reported for an invariant *)
Definition errorOf (stat : string -> StatResult) (cfg : Config) (i : Invariant)
    : string :=
  match i with
  | InvSampleRate => "config: SampleRate must be 16000"
  | InvChunkSize => "config: ChunkSize must be 512"
  | InvVadThreshold => "config: VadThreshold must be in [0, 1]"
  | InvPreSpeech => "config: VadPreSpeechMs must be >= 0"
  | InvStopSilence => "config: VadStopMs must be > 0"
  | InvMaxDuration => "config: TurnMaxDurationSeconds must be > 0"
  | InvEmitCadence => "config: TurnSegmentEmitMs must be > 0"
  | InvTurnThreshold => "config: TurnThreshold must be in [0, 1]"
  | InvTimeout => "config: TurnTimeoutMs must be > 0"
  | InvSileroPath => "config: SileroVADModelPath is required"
  | InvSmartTurnPath => "config: SmartTurnModelPath is required"
  | InvSileroFile =>
      statText (SileroVADModelPath cfg)
        "config: Silero VAD model file not found: " (stat (SileroVADModelPath cfg))
  | InvSmartTurnFile =>
      statText (SmartTurnModelPath cfg)
        "config: Smart-Turn model file not found: " (stat (SmartTurnModelPath cfg))
  end.

Definition isNaN (x : float32) : bool :=
  match x with S754_nan => true | _ => false end.

(** the configuration of [examples/utility/main.go], with the two model
    paths of the resolver *)
Definition exampleConfig : Config :=
  {| SampleRate := 16000;
     ChunkSize := 512;
     VadThreshold := S754_finite false 12582912 (-24);       (* 0.75 *)
     VadPreSpeechMs := 200;
     VadStopMs := 800;
     TurnMaxDurationSeconds := S754_finite false 9830400 (-14); (* 600 *)
     TurnSegmentEmitMs := 1000;
     TurnThreshold := S754_finite false 15099494 (-24);      (* 0.9 *)
     TurnTimeoutMs := 1000;
     SileroVADModelPath := "models/silero_vad.onnx";
     SmartTurnModelPath := "models/smart-turn-v3.2-cpu.onnx" |}.

(** the same, with a not-a-number for the VAD threshold *)
Definition nanThresholdConfig : Config :=
  {| SampleRate := 16000;
     ChunkSize := 512;
     VadThreshold := S754_nan;
     VadPreSpeechMs := 200;
     VadStopMs := 800;
     TurnMaxDurationSeconds := S754_finite false 9830400 (-14);
     TurnSegmentEmitMs := 1000;
     TurnThreshold := S754_finite false 15099494 (-24);
     TurnTimeoutMs := 1000;
     SileroVADModelPath := "models/silero_vad.onnx";
     SmartTurnModelPath := "models/smart-turn-v3.2-cpu.onnx" |}.

(** a disk on which every path exists *)
Definition allExist : string -> StatResult := fun _ => StatOk.

End Cfg.

(** ** examples/utility/resolver *)

Module Resolver.

#[local] Open Scope string_scope.

(** a Go [(value, error)] pair of which one side is set *)
Inductive result (A : Type) : Type :=
| Ok (a : A)
| Err (msg : string).
Arguments Ok {A} a.
Arguments Err {A} msg.

(** What the resolver takes from the Go runtime and the standard library of
    the host: the platform, the current directory, the path of the
    executable and the path functions of [path/filepath].  They are not
    code of the repository and the embedding takes them as they come. *)
Record Host : Type := mkHost {
  GOOS : string;
  GOARCH : string;
  os_Getwd : result string;
  os_Executable : result string;
  filepath_Join : list string -> string;
  filepath_Dir : string -> string;
  filepath_Base : string -> string;
  filepath_Abs : string -> result string
}.

(** The disk and the network as a download leaves them: the content of
    every path that [os.Stat] finds, and the requests sent so far, the
    latest first. *)
Record World : Type := mkWorld {
  files : gmap string string;
  fetched : list string
}.

(** an HTTP response: status code and line, the bytes [io.Copy] writes
    before it stops, and the error it stops with, if any *)
Record Response : Type := mkResponse {
  StatusCode : Z;
  Status : string;
  Body : string;
  CopyErr : option string
}.

(** What can go wrong outside the program during one download: each call
    whose error the source looks at gets its outcome from here.
    [os.Remove] is not among them: the source discards its error, and it
    removes a file that this very call created. *)
Record Outside : Type := mkOutside {
  os_MkdirAll : string -> option string;
  http_Get : string -> result Response;
  os_Create : string -> option string;
  os_Rename : string -> string -> option string
}.

Definition urlONNXRuntimeBase : string :=
  "https://github.com/yalue/onnxruntime_go/raw/refs/heads/master/test_data".
Definition urlSileroVAD : string :=
  "https://github.com/snakers4/silero-vad/raw/refs/heads/master/src/silero_vad/data/silero_vad.onnx".
Definition urlSmartTurn : string :=
  "https://huggingface.co/pipecat-ai/smart-turn-v3/resolve/main/smart-turn-v3.2-cpu.onnx".
Definition sileroVADName : string := "silero_vad.onnx".
Definition smartTurnName : string := "smart-turn-v3.2-cpu.onnx".

Definition BundledLibDir : string := "lib".
Definition DataDir : string := "data".
Definition ModelsDir : string := "models".

Definition http_StatusOK : Z := 200.

Definition pathExists (w : World) (p : string) : bool :=
  bool_decide (is_Some (files w !! p)).

(** [onnxRuntimeURL]: a Go map answers the empty string for a key it does
    not hold. *)
Definition onnxRuntimeURL (h : Host) : string :=
  let m : gmap string string :=
    <["windows_amd64" := urlONNXRuntimeBase ++ "/onnxruntime.dll"]>
    (<["darwin_amd64" := urlONNXRuntimeBase ++ "/onnxruntime_amd64.dylib"]>
    (<["darwin_arm64" := urlONNXRuntimeBase ++ "/onnxruntime_arm64.dylib"]>
    (<["linux_arm64" := urlONNXRuntimeBase ++ "/onnxruntime_arm64.so"]> ∅))) in
  default "" (m !! (GOOS h ++ "_" ++ GOARCH h)).

Definition write (p content : string) (w : World) : World :=
  {| files := <[p := content]> (files w); fetched := fetched w |}.

Definition remove (p : string) (w : World) : World :=
  {| files := delete p (files w); fetched := fetched w |}.

Definition rename (old new : string) (w : World) : World :=
  match files w !! old with
  | Some content =>
      {| files := <[new := content]> (delete old (files w)); fetched := fetched w |}
  | None => w
  end.

Definition request (url : string) (w : World) : World :=
  {| files := files w; fetched := url :: fetched w |}.

(** [downloadFile] *)
Definition downloadFile (h : Host) (o : Outside) (url destDir destName : string)
    (w : World) : result string * World :=
  let path := filepath_Join h [destDir; destName] in
  if pathExists w path then (Ok path, w)
  else
    match os_MkdirAll o destDir with
    | Some err => (Err ("mkdir " ++ destDir ++ ": " ++ err), w)
    | None =>
        let w := request url w in
        match http_Get o url with
        | Err err => (Err ("GET " ++ url ++ ": " ++ err), w)
        | Ok resp =>
            if negb (StatusCode resp =? http_StatusOK)%Z
            then (Err ("GET " ++ url ++ ": " ++ Status resp), w)
            else
              let tmpPath := path ++ ".tmp" in
              match os_Create o tmpPath with
              | Some err => (Err ("create " ++ tmpPath ++ ": " ++ err), w)
              | None =>
                  let w := write tmpPath "" w in
                  let w := write tmpPath (Body resp) w in
                  let n := String.length (Body resp) in
                  match CopyErr resp with
                  | Some err =>
                      (Err ("write " ++ tmpPath ++ ": " ++ err), remove tmpPath w)
                  | None =>
                      if (n =? 0)%nat
                      then (Err ("empty response from " ++ url), remove tmpPath w)
                      else
                        match os_Rename o tmpPath path with
                        | Some err =>
                            (Err ("rename to " ++ path ++ ": " ++ err),
                             remove tmpPath w)
                        | None => (Ok path, rename tmpPath path w)
                        end
                  end
              end
        end
    end.

Definition ResolveSileroVAD (h : Host) (o : Outside) (dir : string) (w : World)
    : result string * World :=
  match downloadFile h o urlSileroVAD dir sileroVADName w with
  | (Err err, w) => (Err err, w)
  | (Ok path, w) => (filepath_Abs h path, w)
  end.

Definition ResolveSmartTurn (h : Host) (o : Outside) (dir : string) (w : World)
    : result string * World :=
  match downloadFile h o urlSmartTurn dir smartTurnName w with
  | (Err err, w) => (Err err, w)
  | (Ok path, w) => (filepath_Abs h path, w)
  end.

Definition bundledLibNames (h : Host) : list string :=
  if bool_decide (GOOS h = "darwin") then ["libonnxruntime.dylib"]
  else if bool_decide (GOOS h = "windows") then ["onnxruntime.dll"]
  else ["libonnxruntime.so.1.23.2"; "libonnxruntime.so"].

Definition dataDirLibName (h : Host) : string :=
  if bool_decide (GOOS h = "darwin") then "onnxruntime_" ++ GOARCH h ++ ".dylib"
  else if bool_decide (GOOS h = "windows") then "onnxruntime.dll"
  else "onnxruntime_" ++ GOARCH h ++ ".so".

Definition bundledLibPlatform (h : Host) : string := GOOS h ++ "_" ++ GOARCH h.

Definition candidateBaseDirs (h : Host) : list string :=
  let cwd := match os_Getwd h with Ok cwd => cwd | Err _ => "." end in
  match os_Executable h with
  | Err _ => [cwd]
  | Ok exe =>
      let exeDir := filepath_Dir h exe in
      if bool_decide (exeDir = cwd) then [cwd] else [cwd; exeDir]
  end.

(** the first loop of [ResolveONNXRuntimeLib]; [Some p] is [return p] *)
Fixpoint scanData (h : Host) (w : World) (dataName : string)
    (bases : list string) : option string :=
  match bases with
  | [] => None
  | base :: bases =>
      if bool_decide (base = "") then scanData h w dataName bases
      else
        let p := filepath_Join h [base; DataDir; dataName] in
        if pathExists w p then Some p else scanData h w dataName bases
  end.

(** the inner loop of the second one *)
Fixpoint scanNames (h : Host) (w : World) (platform base : string)
    (names : list string) : option string :=
  match names with
  | [] => None
  | name :: names =>
      let p := filepath_Join h [base; BundledLibDir; platform; name] in
      if pathExists w p then Some p else scanNames h w platform base names
  end.

Fixpoint scanLib (h : Host) (w : World) (platform : string)
    (bases : list string) : option string :=
  match bases with
  | [] => None
  | base :: bases =>
      if bool_decide (base = "") then scanLib h w platform bases
      else
        match scanNames h w platform base (bundledLibNames h) with
        | Some p => Some p
        | None => scanLib h w platform bases
        end
  end.

Definition ResolveONNXRuntimeLib (h : Host) (w : World) : string :=
  let platform := bundledLibPlatform h in
  let dataName := dataDirLibName h in
  match scanData h w dataName (candidateBaseDirs h) with
  | Some p => p
  | None =>
      match scanLib h w platform (candidateBaseDirs h) with
      | Some p => p
      | None => ""
      end
  end.

Definition ResolveONNXRuntimeLibWithDownload (h : Host) (o : Outside)
    (dir : string) (w : World) : result string * World :=
  let url := onnxRuntimeURL h in
  if bool_decide (url = "") then (Ok (ResolveONNXRuntimeLib h w), w)
  else
    let name := filepath_Base h url in
    match downloadFile h o url dir name w with
    | (Err err, w) => (Err err, w)
    | (Ok path, w) => (filepath_Abs h path, w)
    end.

(** what each resolver does with the answer of [downloadFile] *)
Definition thenAbs (h : Host) (r : result string * World) : result string * World :=
  match r with
  | (Err err, w) => (Err err, w)
  | (Ok path, w) => (filepath_Abs h path, w)
  end.

(** *** The bundle locations, in the words of the specification *)

(** a [data/] directory with the platform-tagged name, under each base *)
Definition dataCandidates (h : Host) : list string :=
  map (fun base => filepath_Join h [base; "data"; dataDirLibName h])
      (filter (fun base => base <> "") (candidateBaseDirs h)).

(** then a [lib/<os>_<arch>/] directory with the standard names *)
Definition libCandidates (h : Host) : list string :=
  flat_map
    (fun base =>
       map (fun name => filepath_Join h [base; "lib"; GOOS h ++ "_" ++ GOARCH h; name])
           (bundledLibNames h))
    (filter (fun base => base <> "") (candidateBaseDirs h)).

Definition bundleCandidates (h : Host) : list string :=
  dataCandidates h ++ libCandidates h.

(** the first candidate that exists, the empty string when none does *)
Definition firstExisting (w : World) (candidates : list string) : string :=
  default "" (List.find (pathExists w) candidates).

(** *** Hosts and outcomes for the examples *)

(** a Linux host on amd64, a platform without download URL, with
    slash-joined paths *)
Definition linuxAmd64 : Host :=
  {| GOOS := "linux";
     GOARCH := "amd64";
     os_Getwd := Ok "/srv/app";
     os_Executable := Ok "/srv/app/turn";
     filepath_Join := String.concat "/";
     filepath_Dir := fun _ => "/srv/app";
     filepath_Base := fun p => p;
     filepath_Abs := fun p => Ok ("/srv/app/" ++ p) |}.

(** the network is down *)
Definition unreachable : Outside :=
  {| os_MkdirAll := fun _ => None;
     http_Get := fun _ => Err "dial tcp: connection refused";
     os_Create := fun _ => None;
     os_Rename := fun _ _ => None |}.

(** the server answers with the given response *)
Definition answering (resp : Response) : Outside :=
  {| os_MkdirAll := fun _ => None;
     http_Get := fun _ => Ok resp;
     os_Create := fun _ => None;
     os_Rename := fun _ _ => None |}.

Definition emptyWorld : World := {| files := ∅; fetched := [] |}.

Definition notFound404 : Response :=
  {| StatusCode := 404; Status := "404 Not Found"; Body := "Not Found";
     CopyErr := None |}.


Definition complete200 : Response :=
  {| StatusCode := 200; Status := "200 OK"; Body := "ONNX-model-bytes";
     CopyErr := None |}.

End Resolver.

(** ** The filterbank with its cache

    [getMelFilterbank] as the source has it, with the package variable
    [cachedMelFilters] as a state: [None] is the nil slice.  The cached
    table is returned whenever its length is [nMels*nBins]. *)
Definition getMelFilterbankCached (cachedMelFilters : option (list R))
    (nMels nBins : nat) : list R * option (list R) :=
  match cachedMelFilters with
  | Some cached =>
      if (length cached =? nMels * nBins)%nat then (cached, cachedMelFilters)
      else
        let filters := getMelFilterbank nMels nBins in
        (filters, Some filters)
  | None =>
      let filters := getMelFilterbank nMels nBins in
      (filters, Some filters)
  end.

(** ** examples/utility/main.go *)

Module Example.
Import Resolver.

#[local] Open Scope string_scope.

(** Lines 17-35 of [main]: the three resolutions, in order; [os.Exit(1)]
    after a message on the standard error is the [Err] with that message,
    less its final newline. *)
Definition resolveAll (h : Host) (o : Outside) (w : World)
    : result (string * string * string) * World :=
  match ResolveSileroVAD h o ModelsDir w with
  | (Err err, w) => (Err ("resolve Silero VAD: " ++ err), w)
  | (Ok sileroPath, w) =>
      match ResolveSmartTurn h o ModelsDir w with
      | (Err err, w) => (Err ("resolve Smart-Turn: " ++ err), w)
      | (Ok smartTurnPath, w) =>
          match ResolveONNXRuntimeLibWithDownload h o ModelsDir w with
          | (Err err, w) => (Err ("resolve ONNX Runtime lib: " ++ err), w)
          | (Ok onnxLibPath, w) =>
              if bool_decide (onnxLibPath = "")
              then (Err "ONNX Runtime lib not found for this platform and no download URL; set ONNXRUNTIME_SHARED_LIBRARY_PATH or place lib in models/", w)
              else (Ok (sileroPath, smartTurnPath, onnxLibPath), w)
          end
      end
  end.

(** the character between the two components of a platform key *)
Definition underscore : Ascii.ascii :=
  Ascii.Ascii true true true true true false true false.

(** no underscore in a platform component *)
Fixpoint noUnderscore (s : string) : bool :=
  match s with
  | EmptyString => true
  | String c s' => negb (Ascii.eqb c underscore) && noUnderscore s'
  end.

(** a macOS host on arm64, a platform with a download URL *)
Definition darwinArm64 : Host :=
  {| GOOS := "darwin";
     GOARCH := "arm64";
     os_Getwd := Ok "/Users/me/app";
     os_Executable := Ok "/Users/me/app/turn";
     filepath_Join := String.concat "/";
     filepath_Dir := fun _ => "/Users/me/app";
     filepath_Base := fun _ => "onnxruntime_arm64.dylib";
     filepath_Abs := fun p =>
       Ok (if String.prefix "/" p then p else "/Users/me/app/" ++ p) |}.

(** the configuration of [main], asked to run at 44.1 kHz *)
Definition cdRateConfig : Cfg.Config :=
  {| Cfg.SampleRate := 44100%Z;
     Cfg.ChunkSize := Cfg.ChunkSize Cfg.exampleConfig;
     Cfg.VadThreshold := Cfg.VadThreshold Cfg.exampleConfig;
     Cfg.VadPreSpeechMs := Cfg.VadPreSpeechMs Cfg.exampleConfig;
     Cfg.VadStopMs := Cfg.VadStopMs Cfg.exampleConfig;
     Cfg.TurnMaxDurationSeconds := Cfg.TurnMaxDurationSeconds Cfg.exampleConfig;
     Cfg.TurnSegmentEmitMs := Cfg.TurnSegmentEmitMs Cfg.exampleConfig;
     Cfg.TurnThreshold := Cfg.TurnThreshold Cfg.exampleConfig;
     Cfg.TurnTimeoutMs := Cfg.TurnTimeoutMs Cfg.exampleConfig;
     Cfg.SileroVADModelPath := Cfg.SileroVADModelPath Cfg.exampleConfig;
     Cfg.SmartTurnModelPath := Cfg.SmartTurnModelPath Cfg.exampleConfig |}.

(** a disk that refuses to be read *)
Definition permissionDenied : string -> Cfg.StatResult :=
  fun p => Cfg.StatError ("stat " ++ p ++ ": permission denied").

End Example.
(** ** Reasoning about the loops *)

Lemma for_range_S {S : Type} (n : nat) (body : nat -> S -> S) (s : S) :
  for_range (Datatypes.S n) body s = body n (for_range n body s).
Proof.
  unfold for_range. rewrite seq_S, fold_left_app. reflexivity.
Qed.

(** The invariant rule for a counted loop. *)
Lemma for_range_inv {S : Type} (P : nat -> S -> Prop) (n : nat)
    (body : nat -> S -> S) (s : S) :
  P O s ->
  (forall i s', (i < n)%nat -> P i s' -> P (Datatypes.S i) (body i s')) ->
  P n (for_range n body s).
Proof.
  intros H0 Hstep. induction n as [|n IH]; [exact H0|].
  rewrite for_range_S. apply Hstep; [lia|]. apply IH.
  intros i s' Hi. apply Hstep. lia.
Qed.

Lemma for_range_ext {S : Type} (n : nat) (f g : nat -> S -> S) (s : S) :
  (forall i s', (i < n)%nat -> f i s' = g i s') ->
  for_range n f s = for_range n g s.
Proof.
  intros H. induction n as [|n IH]; [reflexivity|].
  rewrite !for_range_S, IH by (intros; apply H; lia). apply H. lia.
Qed.

(** A loop that breaks at the first index where [stop] holds runs the body
    for the indices before it. *)
Lemma for_break_prefix {S : Type} (n k t : nat) (stop : nat -> bool)
    (body : nat -> S -> S) (s : S) :
  (k <= n)%nat ->
  (forall u, (t <= u < t + k)%nat -> stop u = false) ->
  ((k < n)%nat -> stop (t + k)%nat = true) ->
  for_break n t stop body s = fold_left (fun s i => body i s) (seq t k) s.
Proof.
  revert k t s. induction n as [|n IH]; intros k t s Hk Hrun Hstop.
  - assert (k = O) by lia. subst k. reflexivity.
  - destruct k as [|k]; simpl.
    + specialize (Hstop ltac:(lia)). replace (t + 0)%nat with t in Hstop by lia.
      rewrite Hstop. reflexivity.
    + rewrite (Hrun t) by lia. apply IH; [lia| |].
      * intros u Hu. apply Hrun. lia.
      * intros Hlt. replace (Datatypes.S t + k)%nat with (t + Datatypes.S k)%nat by lia.
        apply Hstop. lia.
Qed.

(** From index 0 this is the counted loop over the first [k] indices. *)
Lemma for_break_range {S : Type} (n k : nat) (stop : nat -> bool)
    (body : nat -> S -> S) (s : S) :
  (k <= n)%nat ->
  (forall u, (u < k)%nat -> stop u = false) ->
  ((k < n)%nat -> stop k = true) ->
  for_break n 0 stop body s = for_range k body s.
Proof.
  intros Hk Hrun Hstop. unfold for_range.
  apply for_break_prefix; [exact Hk | intros u Hu; apply Hrun; lia | exact Hstop].
Qed.

Lemma for_range_sum (n : nat) (f : nat -> R) (a : R) :
  for_range n (fun i acc => acc + f i) a = a + sumN n f.
Proof.
  induction n as [|n IH]; simpl.
  - unfold for_range. simpl. lra.
  - rewrite for_range_S, IH. lra.
Qed.

Lemma for_range_sum2 (n : nat) (f g : nat -> R) :
  for_range n (fun i '(re, im) => (re + f i, im + g i)) (0, 0)
  = (sumN n f, sumN n g).
Proof.
  induction n as [|n IH]; [reflexivity|].
  rewrite for_range_S, IH. reflexivity.
Qed.

Lemma sumN_ext (n : nat) (f g : nat -> R) :
  (forall i, (i < n)%nat -> f i = g i) -> sumN n f = sumN n g.
Proof.
  intros H. induction n as [|n IH]; [reflexivity|].
  simpl. rewrite IH, H by (intros; try apply H; lia). reflexivity.
Qed.

Lemma sumN_zero (n : nat) (f : nat -> R) :
  (forall i, (i < n)%nat -> f i = 0) -> sumN n f = 0.
Proof.
  intros H. induction n as [|n IH]; [reflexivity|].
  simpl. rewrite IH, H by (intros; try apply H; lia). lra.
Qed.





Lemma idx_lookup (s : list R) (i : nat) (v : R) :
  s !! i = Some v -> idx s i = v.
Proof. intros H. unfold idx. apply nth_lookup_Some with (d := 0) in H. exact H. Qed.

Lemma idx_insert_eq (s : list R) (i : nat) (v : R) :
  (i < length s)%nat -> idx (<[i := v]> s) i = v.
Proof. intros H. apply idx_lookup, list_lookup_insert_eq, H. Qed.

Lemma idx_insert_ne (s : list R) (i j : nat) (v : R) :
  i <> j -> idx (<[i := v]> s) j = idx s j.
Proof.
  intros H. unfold idx. rewrite !nth_lookup, list_lookup_insert_ne by exact H.
  reflexivity.
Qed.

Lemma idx_replicate (n i : nat) : idx (replicate n 0) i = 0.
Proof.
  unfold idx. rewrite nth_lookup. destruct (decide (i < n)%nat).
  - rewrite lookup_replicate_2 by assumption. reflexivity.
  - rewrite lookup_ge_None_2; [reflexivity|]. rewrite length_replicate. lia.
Qed.

(** A loop that stores [val i] at [i], for [i < n], into a slice of [n]
    zeros builds the table of [val]. *)
Lemma table_loop (n : nat) (val : nat -> R) :
  let tbl := for_range n (fun i s => <[i := val i]> s) (replicate n 0) in
  length tbl = n /\ forall i, (i < n)%nat -> idx tbl i = val i.
Proof.
  set (P := fun (k : nat) (s : list R) =>
              length s = n /\ forall i, (i < k)%nat -> idx s i = val i).
  assert (P n (for_range n (fun i s => <[i := val i]> s) (replicate n 0))) as H.
  { apply for_range_inv.
    - split; [apply length_replicate|]. intros; lia.
    - intros k s Hk [Hlen Hs]. split; [rewrite length_insert; exact Hlen|].
      intros i Hi. destruct (decide (i = k)) as [->|Hne].
      + apply idx_insert_eq. lia.
      + rewrite idx_insert_ne by congruence. apply Hs. lia. }
  exact H.
Qed.

(** A loop that stores [val i] at [pos i]: the other cells are kept. *)
Lemma store_loop (n : nat) (pos : nat -> nat) (val : nat -> R) (s0 : list R) :
  (forall i, (i < n)%nat -> (pos i < length s0)%nat) ->
  (forall i i', (i < n)%nat -> (i' < n)%nat -> pos i = pos i' -> i = i') ->
  let s := for_range n (fun i s => <[pos i := val i]> s) s0 in
  length s = length s0
  /\ (forall i, (i < n)%nat -> idx s (pos i) = val i)
  /\ (forall j, (forall i, (i < n)%nat -> pos i <> j) -> idx s j = idx s0 j).
Proof.
  intros Hin Hinj.
  set (P := fun (k : nat) (s : list R) =>
              length s = length s0
              /\ (forall i, (i < k)%nat -> idx s (pos i) = val i)
              /\ (forall j, (forall i, (i < k)%nat -> pos i <> j) ->
                            idx s j = idx s0 j)).
  assert (P n (for_range n (fun i s => <[pos i := val i]> s) s0)) as H.
  { apply for_range_inv.
    - split; [reflexivity|]. split; [intros; lia | reflexivity].
    - intros k s Hk (Hlen & Hhit & Hmiss). split; [|split].
      + rewrite length_insert. exact Hlen.
      + intros i Hi. destruct (decide (i = k)) as [->|Hne].
        * apply idx_insert_eq. rewrite Hlen. apply Hin, Hk.
        * rewrite idx_insert_ne; [apply Hhit; lia|].
          intros E. apply Hne. symmetry. apply Hinj; [lia..|exact E].
      + intros j Hj. rewrite idx_insert_ne by (apply Hj; lia).
        apply Hmiss. intros i Hi. apply Hj. lia. }
  exact H.
Qed.

(** ** What the loops of the feature extractor compute *)

Lemma hannWindow_spec :
  length hannWindow = whisperNFFT
  /\ forall i, (i < whisperNFFT)%nat -> idx hannWindow i = hann i.
Proof. exact (table_loop whisperNFFT hann). Qed.

Lemma dftPower_ext (n : nat) (x y : nat -> R) (k : nat) :
  (forall i, (i < n)%nat -> x i = y i) -> dftPower n x k = dftPower n y k.
Proof.
  intros H. unfold dftPower.
  rewrite (sumN_ext n (fun i => x i * cos _) (fun i => y i * cos (-2 * PI * INR k * INR i / INR n)))
    by (intros i Hi; rewrite H by exact Hi; reflexivity).
  rewrite (sumN_ext n (fun i => x i * sin _) (fun i => y i * sin (-2 * PI * INR k * INR i / INR n)))
    by (intros i Hi; rewrite H by exact Hi; reflexivity).
  reflexivity.
Qed.

Lemma realFFTPower_spec (buf : list R) (n : nat) :
  length (realFFTPower buf n) = (n / 2 + 1)%nat
  /\ forall k, (k < n / 2 + 1)%nat ->
       idx (realFFTPower buf n) k = dftPower n (fun i => idx buf (i * 2)) k.
Proof.
  unfold realFFTPower.
  pose proof (table_loop (n / 2 + 1)
                (dftPower n (fun i => idx buf (i * 2)))) as [Hlen Hidx].
  erewrite for_range_ext; [split; [exact Hlen | exact Hidx]|].
  intros k s _. cbv beta.
  rewrite (for_range_sum2 n
             (fun i => idx buf (i * 2) * cos (-2 * PI * INR k * INR i / INR n))
             (fun i => idx buf (i * 2) * sin (-2 * PI * INR k * INR i / INR n))).
  reflexivity.
Qed.

Lemma getMelFilterbank_spec (nMels nBins : nat) :
  length (getMelFilterbank nMels nBins) = (nMels * nBins)%nat
  /\ forall m k, (m < nMels)%nat -> (k < nBins)%nat ->
       idx (getMelFilterbank nMels nBins) (m * nBins + k)
       = melWeight nMels nBins m k.
Proof.
  unfold getMelFilterbank. cbv zeta.
  pose proof (table_loop (nMels + 2) (melPoint nMels)) as [HmpL Hmp].
  unfold melPoint in HmpL, Hmp. cbv zeta in HmpL, Hmp.
  set (mp := for_range (nMels + 2) _ (replicate (nMels + 2) 0)) in *.
  rewrite HmpL.
  pose proof (table_loop (nMels + 2) (fun i => melToHz (idx mp i))) as [_ Hhz].
  cbv zeta in Hhz.
  set (hp := for_range (nMels + 2) _ (replicate (nMels + 2) 0)) in *.
  pose proof (table_loop nBins (binFreq nBins)) as [_ Hbf].
  unfold binFreq in Hbf. cbv zeta in Hbf.
  set (bf := for_range nBins _ (replicate nBins 0)) in *.
  set (P := fun (r : nat) (s : list R) =>
              length s = (nMels * nBins)%nat
              /\ forall m k, (m < r)%nat -> (k < nBins)%nat ->
                   idx s (m * nBins + k) = melWeight nMels nBins m k).
  match goal with |- length ?l = _ /\ _ => assert (P nMels l) as H end.
  { apply for_range_inv.
    - split; [apply length_replicate|]. intros; lia.
    - intros r s Hr [Hlen Hs]. cbv beta.
      pose proof (store_loop nBins (fun k => (r * nBins + k)%nat)
                    (melWeight nMels nBins r) s) as Hst.
      cbv zeta in Hst.
      destruct Hst as (HlenS & Hhit & Hmiss).
      { intros i Hi. rewrite Hlen. nia. }
      { intros; lia. }
      erewrite for_range_ext.
      + split; [rewrite HlenS; exact Hlen|].
        intros m k Hm Hk. destruct (decide (m = r)) as [->|Hne].
        * apply Hhit, Hk.
        * rewrite Hmiss; [apply Hs; [lia | exact Hk]|].
          intros i Hi. nia.
      + intros k s' Hk. cbv beta. f_equal.
        unfold melWeight, hzPoint, melPoint, binFreq.
        rewrite !Hhz, !Hmp, Hbf by lia. reflexivity. }
  destruct H as [Hlen Hs]. split; [exact Hlen|].
  intros m k Hm Hk. apply Hs; assumption.
Qed.

(** Filling [fftBuf] with a frame: the real parts are the windowed samples,
    whatever the buffer held before. *)
Lemma fill_fftBuf (n : nat) (x : nat -> R) (buf : list R) :
  length buf = (n * 2)%nat ->
  let buf' :=
    for_range n
      (fun i fftBuf => <[(i * 2 + 1)%nat := 0]> (<[(i * 2)%nat := x i]> fftBuf))
      buf in
  length buf' = (n * 2)%nat
  /\ forall i, (i < n)%nat -> idx buf' (i * 2) = x i.
Proof.
  intros Hlen.
  set (P := fun (k : nat) (s : list R) =>
              length s = (n * 2)%nat
              /\ forall i, (i < k)%nat -> idx s (i * 2) = x i).
  match goal with |- let b := ?l in _ => assert (P n l) as H end.
  { apply for_range_inv.
    - split; [exact Hlen|]. intros; lia.
    - intros k s Hk [Hl Hs]. split; [rewrite !length_insert; exact Hl|].
      intros i Hi. rewrite idx_insert_ne by lia.
      destruct (decide (i = k)) as [->|Hne].
      + apply idx_insert_eq. lia.
      + rewrite idx_insert_ne by lia. apply Hs. lia. }
  exact H.
Qed.

(** One pass of the frame loop stores the column of its frame and keeps the
    other columns. *)
Lemma frameBody_spec (padded mel fftBuf : list R) (t : nat) :
  (t < whisper8sFrames)%nat ->
  length mel = (whisperNMels * whisper8sFrames)%nat ->
  length fftBuf = (whisperNFFT * 2)%nat ->
  let st := frameBody padded hannWindow
              (getMelFilterbank whisperNMels (whisperNFFT / 2 + 1))
              (whisperNFFT / 2 + 1) t (mel, fftBuf) in
  length (fst st) = (whisperNMels * whisper8sFrames)%nat
  /\ length (snd st) = (whisperNFFT * 2)%nat
  /\ forall m u, (m < whisperNMels)%nat -> (u < whisper8sFrames)%nat ->
       idx (fst st) (m * whisper8sFrames + u)
       = if decide (u = t) then logMelEntry padded t m
         else idx mel (m * whisper8sFrames + u).
Proof.
  intros Ht Hmel Hbuf. unfold frameBody. cbv zeta.
  destruct hannWindow_spec as [_ Hwin].
  destruct (getMelFilterbank_spec whisperNMels (whisperNFFT / 2 + 1)) as [_ Hflt].
  pose proof (fill_fftBuf whisperNFFT
                (fun i => idx padded (t * whisperHop + i) * idx hannWindow i)
                fftBuf Hbuf) as Hfill.
  cbv zeta in Hfill. destruct Hfill as [HbufL Hfill].
  set (buf' := for_range whisperNFFT _ fftBuf) in *.
  destruct (realFFTPower_spec buf' whisperNFFT) as [_ Hpow].
  set (power := realFFTPower buf' whisperNFFT) in *.
  pose proof (store_loop whisperNMels
                (fun m => (m * whisper8sFrames + t)%nat)
                (logMelEntry padded t) mel) as Hst.
  cbv zeta in Hst. destruct Hst as (HlenS & Hhit & Hmiss).
  { intros i Hi. rewrite Hmel. unfold whisper8sFrames in *. nia. }
  { intros. unfold whisper8sFrames in *. lia. }
  cbn [fst snd].
  erewrite for_range_ext.
  - split; [rewrite HlenS; exact Hmel|]. split; [exact HbufL|].
    intros m u Hm Hu. destruct (decide (u = t)) as [->|Hne].
    + apply Hhit, Hm.
    + apply Hmiss. intros i Hi. unfold whisper8sFrames in *. nia.
  - intros m s Hm. cbv beta. f_equal.
    rewrite for_range_sum, Rplus_0_l.
    unfold logMelEntry, melEnergy. cbv zeta.
    rewrite (sumN_ext _ _
               (fun k => melWeight whisperNMels (whisperNFFT / 2 + 1) m k
                         * dftPower whisperNFFT (frameSample padded t) k)).
    + reflexivity.
    + intros k Hk. rewrite Hflt, Hpow by assumption. f_equal.
      apply dftPower_ext. intros i Hi.
      rewrite Hfill by exact Hi. unfold frameSample. rewrite Hwin by exact Hi.
      reflexivity.
Qed.

(** The frame loop leaves the loop at frame 798, whose window would end at
    sample 128,080: columns 0 to 797 hold the entries of their frames and
    columns 798 and 799 the zeros [mel] was made with. *)
Lemma logMelMatrix_spec (padded : list R) :
  length padded = whisper8sSamples ->
  length (logMelMatrix padded) = (whisperNMels * whisper8sFrames)%nat
  /\ forall m t, (m < whisperNMels)%nat -> (t < whisper8sFrames)%nat ->
       idx (logMelMatrix padded) (m * whisper8sFrames + t)
       = if (t <? completeFrames)%nat then logMelEntry padded t m else 0.
Proof.
  intros Hlen. unfold logMelMatrix. cbv zeta.
  rewrite (for_break_range whisper8sFrames completeFrames).
  2:{ unfold whisper8sFrames, completeFrames. lia. }
  2:{ intros u Hu. apply Nat.ltb_ge. rewrite Hlen.
      unfold whisper8sSamples, whisperHop, whisperNFFT, completeFrames in *. lia. }
  2:{ intros _. apply Nat.ltb_lt. rewrite Hlen.
      unfold whisper8sSamples, whisperHop, whisperNFFT, completeFrames. lia. }
  set (P := fun (k : nat) (st : list R * list R) =>
              length (fst st) = (whisperNMels * whisper8sFrames)%nat
              /\ length (snd st) = (whisperNFFT * 2)%nat
              /\ forall m t, (m < whisperNMels)%nat -> (t < whisper8sFrames)%nat ->
                   idx (fst st) (m * whisper8sFrames + t)
                   = if (t <? k)%nat then logMelEntry padded t m else 0).
  match goal with |- length (fst ?l) = _ /\ _ => assert (P completeFrames l) as H end.
  { apply for_range_inv.
    - split; [apply length_replicate|]. split; [apply length_replicate|].
      intros m t _ _. apply idx_replicate.
    - intros k [mel buf] Hk (Hm & Hb & Hs). cbn [fst snd] in Hm, Hb, Hs.
      pose proof (frameBody_spec padded mel buf k) as Hf. cbv zeta in Hf.
      destruct Hf as (Hm' & Hb' & Hs'); [unfold whisper8sFrames, completeFrames in *; lia|exact Hm|exact Hb|].
      split; [exact Hm'|]. split; [exact Hb'|].
      intros m t Hmm Ht. rewrite Hs' by assumption.
      destruct (decide (t = k)) as [->|Hne].
      + rewrite (proj2 (Nat.ltb_lt k (Datatypes.S k))) by lia. reflexivity.
      + rewrite Hs by assumption.
        destruct (Nat.ltb_spec t k), (Nat.ltb_spec t (Datatypes.S k)); try reflexivity; lia. }
  destruct H as (Hm & _ & Hs). split; [exact Hm | exact Hs].
Qed.

(** ** The dynamic-range compression *)

Lemma maxLoop_ge_init (mel : list R) (a : R) :
  a <= fold_left (fun maxVal v => if decide (maxVal < v) then v else maxVal) mel a.
Proof.
  revert a. induction mel as [|x mel IH]; intros a; simpl; [lra|].
  destruct (decide (a < x)) as [Hlt|Hge].
  - specialize (IH x). lra.
  - apply IH.
Qed.

Lemma maxLoop_ge_elem (mel : list R) (a v : R) :
  In v mel ->
  v <= fold_left (fun maxVal v => if decide (maxVal < v) then v else maxVal) mel a.
Proof.
  revert a. induction mel as [|x mel IH]; intros a Hin; simpl; [destruct Hin|].
  destruct Hin as [->|Hin]; [|apply IH, Hin].
  destruct (decide (a < v)) as [Hlt|Hge].
  - apply maxLoop_ge_init.
  - pose proof (maxLoop_ge_init mel a). unfold Rlt_decision in *. lra.
Qed.

Lemma maxLoop_attained (mel : list R) (a : R) :
  let r := fold_left (fun maxVal v => if decide (maxVal < v) then v else maxVal) mel a in
  r = a \/ In r mel.
Proof.
  revert a. induction mel as [|x mel IH]; intros a; simpl; [left; reflexivity|].
  destruct (decide (a < x)) as [Hlt|Hge].
  - destruct (IH x) as [E|Hin]; [right; left; symmetry; exact E | right; right; exact Hin].
  - destruct (IH a) as [E|Hin]; [left; exact E | right; right; exact Hin].
Qed.

Lemma maxValOf_ge (mel : list R) (v : R) : In v mel -> v <= maxValOf mel.
Proof. apply maxLoop_ge_elem. Qed.

(** When the matrix holds a value above the initial [-1e30], [maxVal] is one
    of its entries. *)
Lemma maxValOf_in (mel : list R) (v : R) :
  In v mel -> -1e30 < v -> In (maxValOf mel) mel.
Proof.
  intros Hin Hv. destruct (maxLoop_attained mel (-1e30)) as [E|H]; [|exact H].
  pose proof (maxValOf_ge mel v Hin) as Hle. unfold maxValOf in Hle.
  cbv zeta in E. rewrite E in Hle. lra.
Qed.

(** [maxVal] is the largest entry as soon as that entry is above [-1e30]. *)
Lemma maxValOf_eq (mel : list R) (b : R) :
  In b mel -> -1e30 < b -> (forall v, In v mel -> v <= b) -> maxValOf mel = b.
Proof.
  intros Hin Hb Hub. apply Rle_antisym.
  - apply Hub. apply (maxValOf_in mel b Hin Hb).
  - apply maxValOf_ge, Hin.
Qed.

Lemma compress_length (mel : list R) : length (compress mel) = length mel.
Proof. unfold compress. cbv zeta. apply length_map. Qed.

Lemma compress_idx (mel : list R) (i : nat) :
  (i < length mel)%nat ->
  idx (compress mel) i
  = (Rmax (idx mel i) (maxValOf mel - 8) + 4) / 4.
Proof.
  intros Hi. unfold compress, idx. cbv zeta.
  match goal with |- nth i (map ?g mel) 0 = _ => set (f := g) end.
  rewrite (nth_indep (map f mel) 0 (f 0)) by (rewrite length_map; exact Hi).
  rewrite (map_nth f). subst f. cbv beta.
  destruct (decide (nth i mel 0 < maxValOf mel - 8.0)) as [Hlt|Hge].
  - rewrite Rmax_right by lra. lra.
  - rewrite Rmax_left by lra. lra.
Qed.


Lemma In_idx (s : list R) (i : nat) : (i < length s)%nat -> In (idx s i) s.
Proof. intros H. apply nth_In, H. Qed.

Lemma In_idx_inv (s : list R) (v : R) :
  In v s -> exists i, (i < length s)%nat /\ idx s i = v.
Proof. intros H. apply (In_nth s v 0) in H. exact H. Qed.

(** the cells of the 80 x 800 matrix, row-major *)
Lemma matrix_cell (i : nat) :
  (i < whisperNMels * whisper8sFrames)%nat ->
  exists m t, (m < whisperNMels)%nat /\ (t < whisper8sFrames)%nat
              /\ i = (m * whisper8sFrames + t)%nat.
Proof.
  intros Hi. exists (i / whisper8sFrames)%nat, (i mod whisper8sFrames)%nat.
  unfold whisperNMels, whisper8sFrames in *.
  pose proof (Nat.div_mod_eq i 800). pose proof (Nat.mod_upper_bound i 800).
  split; [|split]; [apply Nat.Div0.div_lt_upper_bound; lia | lia | lia].
Qed.

(** ** Normalisation and padding *)

Lemma paddedBuffer_length (audio : list R) :
  length (paddedBuffer audio) = whisper8sSamples.
Proof.
  unfold paddedBuffer. cbv zeta.
  match goal with |- context [if (_ <=? length ?x)%nat then _ else _] =>
    generalize x; intros a end.
  destruct (Nat.leb_spec whisper8sSamples (length a)) as [Hge|Hlt].
  - match goal with |- length (for_range ?n ?f ?s0) = _ =>
      apply (for_range_inv (fun _ l => length l = whisper8sSamples) n f s0) end.
    + apply length_replicate.
    + intros i s _ Hs. rewrite length_insert. exact Hs.
  - match goal with |- length (for_range ?n ?f ?s0) = _ =>
      apply (for_range_inv (fun _ l => length l = whisper8sSamples) n f s0) end.
    + apply length_replicate.
    + intros i s _ Hs. rewrite length_insert. exact Hs.
Qed.

Lemma fromPadded_full (padded : list R) :
  length padded = whisper8sSamples ->
  computeWhisperMelFromPadded padded = compress (logMelMatrix padded).
Proof.
  intros H. unfold computeWhisperMelFromPadded.
  rewrite (proj2 (Nat.eqb_eq _ _) H). reflexivity.
Qed.

Lemma computeWhisperMel_nonempty (audio : list R) :
  audio <> [] ->
  computeWhisperMel audio = compress (logMelMatrix (paddedBuffer audio)).
Proof.
  intros H. unfold computeWhisperMel.
  destruct audio as [|x audio]; [congruence|]. cbn [length Nat.eqb].
  apply fromPadded_full, paddedBuffer_length.
Qed.

(** The zeros of the last two columns are part of the matrix. *)
Lemma logMelMatrix_has_zero (padded : list R) :
  length padded = whisper8sSamples -> In 0 (logMelMatrix padded).
Proof.
  intros Hlen. destruct (logMelMatrix_spec padded Hlen) as [Hl Hs].
  specialize (Hs O completeFrames).
  rewrite Nat.ltb_irrefl in Hs. rewrite <- Hs.
  - apply In_idx. rewrite Hl. unfold whisperNMels, whisper8sFrames, completeFrames. lia.
  - unfold whisperNMels. lia.
  - unfold whisper8sFrames, completeFrames. lia.
Qed.


(** ** Maximum, minimum and range of a matrix *)










Lemma log10_pow10_neg (n : nat) : log10 (/ 10 ^ n) = - INR n.
Proof.
  unfold log10.
  assert (0 < ln 10) by (rewrite <- ln_1; apply ln_increasing; lra).
  rewrite ln_Rinv by (apply pow_lt; lra). rewrite ln_pow by lra.
  field. lra.
Qed.

Lemma log10_increasing (x y : R) : 0 < x -> x < y -> log10 x < log10 y.
Proof.
  intros Hx Hxy. unfold log10.
  assert (0 < ln 10) by (rewrite <- ln_1; apply ln_increasing; lra).
  apply Rmult_lt_compat_r; [apply Rinv_0_lt_compat; assumption|].
  apply ln_increasing; assumption.
Qed.

Lemma log10_1 : log10 1 = 0.
Proof. unfold log10. rewrite ln_1. lra. Qed.

(** the power spectrum of a silent frame *)
Lemma dftPower_silent (n : nat) (x : nat -> R) (k : nat) :
  (forall i, (i < n)%nat -> x i = 0) -> dftPower n x k = 0.
Proof.
  intros H. unfold dftPower. cbv zeta.
  rewrite !sumN_zero; [lra | |]; intros i Hi; rewrite H by exact Hi; lra.
Qed.

Lemma logMelEntry_silent (padded : list R) (t m : nat) :
  (forall i, (i < whisperNFFT)%nat -> idx padded (t * whisperHop + i) = 0) ->
  logMelEntry padded t m = -10.
Proof.
  intros H. unfold logMelEntry, melEnergy. cbv zeta.
  rewrite sumN_zero.
  - destruct (decide (0 < 1e-10)) as [_|Hn]; [|lra].
    replace 1e-10 with (/ 10 ^ 10) by lra.
    rewrite log10_pow10_neg. simpl. lra.
  - intros k _. rewrite dftPower_silent; [lra|].
    intros i Hi. unfold frameSample. rewrite H by exact Hi. lra.
Qed.

(** ** Normalisation and right alignment *)

Lemma fold_left_Rsum (f : R -> R) (l : list R) (a : R) :
  fold_left (fun acc v => acc + f v) l a = a + Rsum (map f l).
Proof.
  revert a. induction l as [|x l IH]; intros a; simpl; [lra|].
  rewrite IH. unfold Rsum. lra.
Qed.

Lemma Rsum_scale (c : R) (l : list R) :
  Rsum (map (fun v => c * v) l) = c * Rsum l.
Proof. induction l as [|x l IH]; simpl; [lra|]. unfold Rsum in *. simpl. rewrite IH. lra. Qed.


Lemma lastWindow_length (audio : list R) :
  length (lastWindow audio) = Nat.min (length audio) whisper8sSamples.
Proof. unfold lastWindow. rewrite length_skipn. lia. Qed.


(** two slices of one length with the same cells *)
Lemma idx_ext (s s' : list R) :
  length s = length s' ->
  (forall i, (i < length s)%nat -> idx s i = idx s' i) -> s = s'.
Proof. intros Hl H. apply (nth_ext s s' 0 0 Hl H). Qed.

Lemma idx_app_l (s s' : list R) (i : nat) :
  (i < length s)%nat -> idx (s ++ s') i = idx s i.
Proof. intros H. unfold idx. apply app_nth1, H. Qed.

Lemma idx_app_r (s s' : list R) (i : nat) :
  (length s <= i)%nat -> idx (s ++ s') i = idx s' (i - length s).
Proof. intros H. unfold idx. apply app_nth2. lia. Qed.

Lemma idx_map (f : R -> R) (s : list R) (i : nat) :
  (i < length s)%nat -> idx (map f s) i = f (idx s i).
Proof.
  intros H. unfold idx.
  rewrite (nth_indep (map f s) 0 (f 0)) by (rewrite length_map; exact H).
  apply map_nth.
Qed.

(** storing the images of [a], right-aligned, into a slice of zeros *)
Lemma right_align (n : nat) (g : R -> R) (a : list R) :
  (length a <= n)%nat ->
  for_range (length a)
    (fun i padded => <[(n - length a + i)%nat := g (idx a i)]> padded)
    (replicate n 0)
  = replicate (n - length a) 0 ++ map g a.
Proof.
  intros Hle.
  pose proof (store_loop (length a) (fun i => (n - length a + i)%nat)
                (fun i => g (idx a i)) (replicate n 0)) as H.
  cbv zeta in H. destruct H as (Hlen & Hhit & Hmiss).
  { intros i Hi. rewrite length_replicate. lia. }
  { intros; lia. }
  rewrite length_replicate in Hlen.
  apply idx_ext.
  - rewrite Hlen, length_app, length_replicate, length_map. lia.
  - intros j Hj. rewrite Hlen in Hj.
    destruct (Nat.lt_ge_cases j (n - length a)) as [Hlt|Hge].
    + rewrite Hmiss by (intros; lia). rewrite idx_replicate.
      rewrite idx_app_l by (rewrite length_replicate; exact Hlt).
      rewrite idx_replicate. reflexivity.
    + rewrite idx_app_r by (rewrite length_replicate; exact Hge).
      rewrite length_replicate, idx_map by lia.
      replace j with (n - length a + (j - (n - length a)))%nat at 1 by lia.
      apply Hhit. lia.
Qed.

Lemma left_align (n : nat) (g : R -> R) (a : list R) :
  length a = n ->
  for_range n (fun i padded => <[i := g (idx a i)]> padded) (replicate n 0)
  = map g a.
Proof.
  intros Hn.
  destruct (table_loop n (fun i => g (idx a i))) as [Hlen Hidx].
  apply idx_ext.
  - rewrite Hlen, length_map. lia.
  - intros i Hi. rewrite Hlen in Hi. rewrite Hidx, idx_map by lia. reflexivity.
Qed.

(** The buffer of the source is the right-aligned normalisation of the last
    window. *)
Lemma paddedBuffer_spec (audio : list R) :
  audio <> [] ->
  paddedBuffer audio
  = replicate (whisper8sSamples - length (lastWindow audio)) 0
    ++ normalise (lastWindow audio).
Proof.
  intros Hne. unfold paddedBuffer. cbv zeta.
  assert ((if (whisper8sSamples <? length audio)%nat
           then drop (length audio - whisper8sSamples) audio else audio)
          = lastWindow audio) as Ea.
  { unfold lastWindow. destruct (Nat.ltb_spec whisper8sSamples (length audio)); [reflexivity|].
    replace (length audio - whisper8sSamples)%nat with O by lia. reflexivity. }
  rewrite Ea. clear Ea.
  pose proof (lastWindow_length audio) as Hlen.
  set (a := lastWindow audio) in *.
  rewrite (fold_left_Rsum (fun v => v) a 0), map_id, Rplus_0_l.
  fold (mean a).
  rewrite (fold_left_Rsum (fun v => (v - mean a) * (v - mean a)) a 0), Rplus_0_l.
  fold (pvariance a).
  assert ((if decide (pvariance a < 1e-7) then 1e-7 else pvariance a)
          = Rmax (pvariance a) 1e-7) as Ev.
  { destruct (decide (pvariance a < 1e-7)); [rewrite Rmax_right | rewrite Rmax_left]; lra. }
  rewrite Ev. clear Ev.
  assert (0 < sqrt (Rmax (pvariance a) 1e-7)) as Hs.
  { apply sqrt_lt_R0. pose proof (Rmax_r (pvariance a) 1e-7). lra. }
  unfold normalise.
  assert (forall v, (v - mean a) * (1.0 / sqrt (Rmax (pvariance a) 1e-7))
                    = (v - mean a) / sqrt (Rmax (pvariance a) 1e-7)) as Eg.
  { intros v. replace 1.0 with 1 by lra. unfold Rdiv. ring. }
  destruct (Nat.leb_spec whisper8sSamples (length a)) as [Hge|Hlt].
  - assert (length a = whisper8sSamples) as E by lia.
    rewrite E, Nat.sub_diag. simpl replicate at 2. simpl app.
    rewrite (left_align whisper8sSamples
               (fun v => (v - mean a) * (1.0 / sqrt (Rmax (pvariance a) 1e-7))) a E).
    apply map_ext. exact Eg.
  - rewrite (right_align whisper8sSamples
               (fun v => (v - mean a) * (1.0 / sqrt (Rmax (pvariance a) 1e-7))) a)
      by lia.
    f_equal. apply map_ext. exact Eg.
Qed.



(** ** The configuration validator *)

Module CfgProofs.
Import Cfg.

#[local] Open Scope string_scope.
#[local] Open Scope Z_scope.

Lemma SFcompare_antisym (x y : float32) (c : comparison) :
  SFcompare x y = Some c -> SFcompare y x = Some (CompOpp c).
Proof.
  destruct x as [sx|sx| |sx mx ex], y as [sy|sy| |sy my ey]; simpl;
    try discriminate; intros [= <-]; f_equal.
  all: try (destruct sx; reflexivity).
  all: try (destruct sy; reflexivity).
  all: try (destruct sx, sy; reflexivity).
  rewrite (Z.compare_antisym ex ey).
  replace (Pos.compare_cont Eq my mx) with (CompOpp (Pos.compare_cont Eq mx my))
    by (rewrite Pos.compare_cont_antisym; reflexivity).
  destruct sx, sy; simpl; try reflexivity;
    destruct (ex ?= ey); simpl; try reflexivity;
    destruct (Pos.compare_cont Eq mx my); reflexivity.
Qed.

Lemma SFcompare_total (x y : float32) :
  isNaN x = false -> isNaN y = false -> exists c, SFcompare x y = Some c.
Proof.
  destruct x, y; simpl; intros; try discriminate; eexists; reflexivity.
Qed.

(** Away from the not-a-number, [x < y] is the negation of [y <= x]. *)
Lemma SFltb_negb_SFleb (x y : float32) :
  isNaN x = false -> isNaN y = false -> SFltb x y = negb (SFleb y x).
Proof.
  intros Hx Hy. destruct (SFcompare_total x y Hx Hy) as [c Hc].
  unfold SFltb, SFleb. rewrite Hc, (SFcompare_antisym x y c Hc).
  destruct c; reflexivity.
Qed.

Lemma SFleb_negb_SFltb (x y : float32) :
  isNaN x = false -> isNaN y = false -> SFleb x y = negb (SFltb y x).
Proof.
  intros Hx Hy. rewrite (SFltb_negb_SFleb y x Hy Hx), negb_involutive. reflexivity.
Qed.

(** The range check of the source is the unit interval of the
    specification, except on the not-a-number. *)
Lemma range_check (x : float32) :
  isNaN x = false ->
  SFltb x f32_0 || SFltb f32_1 x = negb (inUnitInterval x).
Proof.
  intros Hx. unfold inUnitInterval.
  rewrite (SFltb_negb_SFleb x f32_0 Hx eq_refl).
  rewrite (SFltb_negb_SFleb f32_1 x eq_refl Hx).
  rewrite negb_andb. reflexivity.
Qed.

Lemma positive_check (x : float32) :
  isNaN x = false -> SFleb x f32_0 = negb (positive32 x).
Proof. intros Hx. apply SFleb_negb_SFltb; [exact Hx | reflexivity]. Qed.

(** On the not-a-number both comparisons of the range check are false. *)
Lemma range_check_nan : SFltb S754_nan f32_0 || SFltb f32_1 S754_nan = false.
Proof. reflexivity. Qed.

(** Except for a not-a-number in one of the three [float32] fields,
    [validateConfig] reports the first violated invariant of the list, and
    accepts when there is none. *)
Lemma validateConfig_first_violated (stat : string -> StatResult) (cfg : Config) :
  isNaN (VadThreshold cfg) = false ->
  isNaN (TurnMaxDurationSeconds cfg) = false ->
  isNaN (TurnThreshold cfg) = false ->
  validateConfig stat cfg = errorOf stat cfg <$> firstViolated stat cfg.
Proof.
  intros Hv Hm Ht. unfold validateConfig, firstViolated, checkOrder.
  unfold RequiredSampleRate, RequiredChunkSize.
  rewrite (range_check _ Hv), (range_check _ Ht), (positive_check _ Hm).
  cbn [List.find holds].
  destruct (SampleRate cfg =? 16000); cbn [negb]; [|reflexivity].
  destruct (ChunkSize cfg =? 512); cbn [negb]; [|reflexivity].
  destruct (inUnitInterval (VadThreshold cfg)); cbn [negb]; [|reflexivity].
  rewrite (Z.ltb_antisym 0 (VadPreSpeechMs cfg)).
  destruct (0 <=? VadPreSpeechMs cfg); cbn [negb]; [|reflexivity].
  rewrite (Z.leb_antisym 0 (VadStopMs cfg)).
  destruct (0 <? VadStopMs cfg); cbn [negb]; [|reflexivity].
  destruct (positive32 (TurnMaxDurationSeconds cfg)); cbn [negb]; [|reflexivity].
  rewrite (Z.leb_antisym 0 (TurnSegmentEmitMs cfg)).
  destruct (0 <? TurnSegmentEmitMs cfg); cbn [negb]; [|reflexivity].
  destruct (inUnitInterval (TurnThreshold cfg)); cbn [negb]; [|reflexivity].
  rewrite (Z.leb_antisym 0 (TurnTimeoutMs cfg)).
  destruct (0 <? TurnTimeoutMs cfg); cbn [negb]; [|reflexivity].
  destruct (bool_decide (SileroVADModelPath cfg = "")); cbn [negb]; [reflexivity|].
  destruct (bool_decide (SmartTurnModelPath cfg = "")); cbn [negb]; [reflexivity|].
  destruct (stat (SileroVADModelPath cfg)) eqn:E1; cbn [statOk negb];
    [|cbn; rewrite E1; reflexivity..].
  destruct (stat (SmartTurnModelPath cfg)) eqn:E2; cbn [statOk negb];
    [reflexivity|cbn; rewrite E2; reflexivity..].
Qed.

(** The three rejections of the specification, whatever the other fields. *)
Lemma rejects_sample_rate_44100 (stat : string -> StatResult) (cfg : Config) :
  SampleRate cfg = 44100 ->
  validateConfig stat cfg = Some "config: SampleRate must be 16000"%string.
Proof. intros H. unfold validateConfig. rewrite H. reflexivity. Qed.

Lemma rejects_chunk_size_256 (stat : string -> StatResult) (cfg : Config) :
  ChunkSize cfg = 256 -> is_Some (validateConfig stat cfg).
Proof.
  intros H. unfold validateConfig. rewrite H.
  destruct (negb (SampleRate cfg =? RequiredSampleRate)); eexists; reflexivity.
Qed.

Lemma rejects_vad_threshold_1_5 (stat : string -> StatResult) (cfg : Config) :
  VadThreshold cfg = S754_finite false 12582912 (-23) ->
  is_Some (validateConfig stat cfg).
Proof.
  intros H. unfold validateConfig. rewrite H.
  destruct (negb (SampleRate cfg =? RequiredSampleRate)); [eexists; reflexivity|].
  destruct (negb (ChunkSize cfg =? RequiredChunkSize)); eexists; reflexivity.
Qed.

Lemma accepts_example : validateConfig allExist exampleConfig = None.
Proof. reflexivity. Qed.

End CfgProofs.

(** ** The resolver *)

Module ResolverProofs.
Import Resolver.

#[local] Open Scope string_scope.

Lemma length_append (s t : string) :
  String.length (s ++ t) = (String.length s + String.length t)%nat.
Proof. induction s as [|c s IH]; simpl; [reflexivity | rewrite IH; reflexivity]. Qed.

(** the temporary name is another path than the destination *)
Lemma tmp_ne (path : string) : path ++ ".tmp" <> path.
Proof.
  intros E. apply (f_equal String.length) in E.
  rewrite length_append in E. simpl in E. lia.
Qed.

Lemma pathExists_true (w : World) (p : string) :
  pathExists w p = true <-> is_Some (files w !! p).
Proof. unfold pathExists. apply bool_decide_eq_true. Qed.

Lemma pathExists_false (w : World) (p : string) :
  pathExists w p = false <-> files w !! p = None.
Proof.
  unfold pathExists. rewrite bool_decide_eq_false, <- eq_None_not_Some. reflexivity.
Qed.

(** the disk after the temporary file was created, written and removed *)
Lemma files_tmp_removed (tmp body url : string) (w : World) :
  files (remove tmp (write tmp body (write tmp "" (request url w))))
  = delete tmp (files w).
Proof. simpl. rewrite !delete_insert_eq. reflexivity. Qed.

(** An existing destination is returned as it is: no directory is made, no
    request sent, no file touched. *)
Lemma downloadFile_exists (h : Host) (o : Outside) (url destDir destName : string)
    (w : World) :
  pathExists w (filepath_Join h [destDir; destName]) = true ->
  downloadFile h o url destDir destName w
  = (Ok (filepath_Join h [destDir; destName]), w).
Proof. intros H. unfold downloadFile. cbv zeta. rewrite H. reflexivity. Qed.


(** A successful return is the destination path, and the file is there:
    it was there before, or a complete, non-empty body of a 200 response has
    just been renamed into place, with one request sent. *)
Lemma downloadFile_success (h : Host) (o : Outside) (url destDir destName : string)
    (w w' : World) (p : string) :
  downloadFile h o url destDir destName w = (Ok p, w') ->
  let path := filepath_Join h [destDir; destName] in
  p = path
  /\ is_Some (files w' !! path)
  /\ ((w' = w /\ is_Some (files w !! path))
      \/ (files w !! path = None
          /\ fetched w' = url :: fetched w
          /\ files w' !! (path ++ ".tmp") = None
          /\ exists resp,
               http_Get o url = Ok resp /\ StatusCode resp = http_StatusOK
               /\ CopyErr resp = None /\ Body resp <> ""
               /\ files w' !! path = Some (Body resp))).
Proof.
  unfold downloadFile. cbv zeta.
  set (path := filepath_Join h [destDir; destName]).
  destruct (pathExists w path) eqn:Hex.
  { intros [= <- <-]. apply pathExists_true in Hex.
    split; [reflexivity|]. split; [exact Hex|]. left. split; [reflexivity | exact Hex]. }
  apply pathExists_false in Hex.
  destruct (os_MkdirAll o destDir); [discriminate|].
  destruct (http_Get o url) as [resp|err] eqn:Hget; [|discriminate].
  destruct (negb (StatusCode resp =? http_StatusOK)%Z) eqn:Hst; [discriminate|].
  destruct (os_Create o (path ++ ".tmp")); [discriminate|].
  destruct (CopyErr resp) eqn:Hcopy; [discriminate|].
  destruct (String.length (Body resp) =? 0)%nat eqn:Hn; [discriminate|].
  destruct (os_Rename o (path ++ ".tmp") path); [discriminate|].
  intros [= <- <-].
  assert (files (rename (path ++ ".tmp") path
                   (write (path ++ ".tmp") (Body resp)
                      (write (path ++ ".tmp") "" (request url w))))
          = <[path := Body resp]> (delete (path ++ ".tmp") (files w))) as Hf.
  { unfold rename. simpl. rewrite lookup_insert_eq. simpl.
    rewrite !delete_insert_eq. reflexivity. }
  split; [reflexivity|]. rewrite Hf.
  split; [rewrite lookup_insert_eq; eexists; reflexivity|].
  right. split; [exact Hex|]. split.
  { unfold rename. simpl. rewrite lookup_insert_eq. reflexivity. }
  split.
  { rewrite lookup_insert_ne by (intros E; symmetry in E; revert E; apply tmp_ne).
    apply lookup_delete_eq. }
  exists resp. split; [reflexivity|].
  split; [apply negb_false_iff, Z.eqb_eq in Hst; exact Hst|].
  split; [exact Hcopy|]. split.
  - intros E. rewrite E in Hn. discriminate.
  - apply lookup_insert_eq.
Qed.

(** One call sends one request at most. *)
Lemma downloadFile_fetches (h : Host) (o : Outside) (url destDir destName : string)
    (w : World) :
  let w' := snd (downloadFile h o url destDir destName w) in
  fetched w' = fetched w \/ fetched w' = url :: fetched w.
Proof.
  unfold downloadFile. cbv zeta.
  destruct (pathExists w _); [left; reflexivity|].
  destruct (os_MkdirAll o destDir); [left; reflexivity|].
  destruct (http_Get o url) as [resp|err]; [|right; reflexivity].
  destruct (negb _); [right; reflexivity|].
  destruct (os_Create o _); [right; reflexivity|].
  destruct (CopyErr resp); [right; reflexivity|].
  destruct (_ =? 0)%nat; [right; reflexivity|].
  destruct (os_Rename o _ _); [right; reflexivity|].
  right. unfold rename. simpl. rewrite lookup_insert_eq. reflexivity.
Qed.


(** *** The bundle scan *)

Lemma find_app {A : Type} (f : A -> bool) (l l' : list A) :
  List.find f (l ++ l')
  = match List.find f l with Some x => Some x | None => List.find f l' end.
Proof.
  induction l as [|x l IH]; simpl; [reflexivity|].
  destruct (f x); [reflexivity | exact IH].
Qed.


Lemma scanData_find (h : Host) (w : World) (dataName : string) (bases : list string) :
  scanData h w dataName bases
  = List.find (pathExists w)
      (map (fun base => filepath_Join h [base; DataDir; dataName])
           (filter (fun base => base <> "") bases)).
Proof.
  induction bases as [|base bases IH]; [reflexivity|].
  simpl. rewrite filter_cons.
  destruct (decide (base = "")) as [E|E].
  - rewrite bool_decide_true by exact E.
    destruct (decide (base <> "")) as [N|_]; [contradiction|]. exact IH.
  - rewrite bool_decide_false by exact E.
    destruct (decide (base <> "")) as [_|N]; [|contradiction].
    simpl. destruct (pathExists w _); [reflexivity | exact IH].
Qed.

Lemma scanNames_find (h : Host) (w : World) (platform base : string)
    (names : list string) :
  scanNames h w platform base names
  = List.find (pathExists w)
      (map (fun name => filepath_Join h [base; BundledLibDir; platform; name]) names).
Proof.
  induction names as [|name names IH]; [reflexivity|].
  simpl. destruct (pathExists w _); [reflexivity | exact IH].
Qed.

Lemma scanLib_find (h : Host) (w : World) (platform : string) (bases : list string) :
  scanLib h w platform bases
  = List.find (pathExists w)
      (flat_map
         (fun base =>
            map (fun name => filepath_Join h [base; BundledLibDir; platform; name])
                (bundledLibNames h))
         (filter (fun base => base <> "") bases)).
Proof.
  induction bases as [|base bases IH]; [reflexivity|].
  simpl. rewrite filter_cons.
  destruct (decide (base = "")) as [E|E].
  - rewrite bool_decide_true by exact E.
    destruct (decide (base <> "")) as [N|_]; [contradiction|]. exact IH.
  - rewrite bool_decide_false by exact E.
    destruct (decide (base <> "")) as [_|N]; [|contradiction].
    simpl. rewrite find_app, scanNames_find, IH. reflexivity.
Qed.

(** [ResolveONNXRuntimeLib] answers the first bundle location that exists,
    [data/] before [lib/], and the empty string when none does. *)
Lemma ResolveONNXRuntimeLib_first (h : Host) (w : World) :
  ResolveONNXRuntimeLib h w = firstExisting w (bundleCandidates h).
Proof.
  unfold ResolveONNXRuntimeLib, firstExisting, bundleCandidates. cbv zeta.
  rewrite find_app, scanData_find, scanLib_find.
  unfold dataCandidates, libCandidates, bundledLibPlatform, DataDir, BundledLibDir.
  destruct (List.find _ (map _ _)); [reflexivity|].
  destruct (List.find _ _); reflexivity.
Qed.

End ResolverProofs.

(** ** The click train through the feature extractor *)


















(** *** One click per frame: a flat power spectrum *)



Lemma INR_400 : INR 400 = 400.
Proof. rewrite INR_IZR_INZ. reflexivity. Qed.



(** *** The window at the clicks *)



(** *** The triangles *)



















(** *** The matrix of the click train *)




(** ** The feature extractor: the properties of the specification *)

(** C8. The feature extractor applied to a zero-length input returns the
    empty result; it has no error to raise. *)
Theorem computeWhisperMel_empty : computeWhisperMel [] = [].
Proof. reflexivity. Qed.

(** C9. A padded buffer whose length is not 128,000 makes
    [computeWhisperMelFromPadded] return the empty (nil) slice; the function
    has no other way to signal the mismatch. *)
Theorem fromPadded_wrong_length (padded : list R) :
  length padded <> whisper8sSamples ->
  computeWhisperMelFromPadded padded = [].
Proof.
  intros H. unfold computeWhisperMelFromPadded.
  destruct (Nat.eqb_spec (length padded) whisper8sSamples) as [E|_]; [contradiction|].
  reflexivity.
Qed.

Lemma fromPadded_wrong_length_witness :
  length [1; 2; 3] <> whisper8sSamples
  /\ computeWhisperMelFromPadded [1; 2; 3] = [].
Proof.
  assert (length [1; 2; 3] <> whisper8sSamples) as H
    by (unfold whisper8sSamples; simpl; lia).
  split; [exact H | apply (fromPadded_wrong_length [1; 2; 3] H)].
Defined.






(** C2, as amended.  For a padded buffer of 128,000 samples the frame loop
    computes 798 frames, those whose 400 samples lie within the buffer:
    for [t < 798] column [t] holds, for each band, the logarithm of the
    floored energy of the Hann-windowed frame, a 201-bin power spectrum
    (squared magnitude of the discrete Fourier transform over 400*400)
    weighted by the band's triangle.  Columns 798 and 799 of the 80 x 800
    matrix are not computed and hold 0 before the compression. *)
Theorem frames_computed (padded : list R) :
  length padded = whisper8sSamples ->
  let mel := logMelMatrix padded in
  length mel = (whisperNMels * whisper8sFrames)%nat
  /\ (forall t, (t < completeFrames)%nat <->
                (t * whisperHop + whisperNFFT <= length padded)%nat)
  /\ (forall m t, (m < whisperNMels)%nat -> (t < completeFrames)%nat ->
        idx mel (m * whisper8sFrames + t)
        = log10 (Rmax 1e-10
                   (sumN 201 (fun k =>
                      melWeight whisperNMels 201 m k
                      * dftPower whisperNFFT
                          (fun i => idx padded (t * whisperHop + i) * hann i) k))))
  /\ (forall m t, (m < whisperNMels)%nat ->
        (completeFrames <= t < whisper8sFrames)%nat ->
        idx mel (m * whisper8sFrames + t) = 0)
  /\ computeWhisperMelFromPadded padded = compress mel.
Proof.
  intros Hlen mel. destruct (logMelMatrix_spec padded Hlen) as [Hl Hs].
  split; [exact Hl|]. split; [|split; [|split]].
  - intros t. rewrite Hlen.
    unfold completeFrames, whisperHop, whisperNFFT, whisper8sSamples. lia.
  - intros m t Hm Ht. unfold mel.
    rewrite Hs by (unfold completeFrames, whisper8sFrames in *; lia).
    rewrite (proj2 (Nat.ltb_lt t completeFrames)) by exact Ht.
    unfold logMelEntry, melEnergy, frameSample. cbv zeta.
    change (whisperNFFT / 2 + 1)%nat with 201%nat.
    f_equal. destruct (decide (_ < 1e-10)) as [Hlt|Hge].
    + rewrite Rmax_left by lra. reflexivity.
    + rewrite Rmax_right by lra. reflexivity.
  - intros m t Hm Ht. unfold mel. rewrite Hs by lia.
    rewrite (proj2 (Nat.ltb_ge t completeFrames)) by lia. reflexivity.
  - apply fromPadded_full, Hlen.
Qed.

Lemma frames_computed_witness :
  length (replicate whisper8sSamples 0) = whisper8sSamples
  /\ length (logMelMatrix (replicate whisper8sSamples 0))
     = (whisperNMels * whisper8sFrames)%nat.
Proof.
  pose proof (length_replicate whisper8sSamples 0) as H.
  split; [exact H | exact (proj1 (frames_computed _ H))].
Defined.

(** C2, as stated, fails on eight seconds of silence.  Frame 798 would start
    at sample 127,680; whatever is taken for its samples, silence is all
    there is, and the entry of a silent frame is [log10 1e-10 = -10], as in
    every column before it.  The matrix holds 0 there, and the returned
    matrix 1 where the computed columns hold -1. *)
Lemma column_798_not_computed :
  let silence := replicate whisper8sSamples 0 in
  length silence = whisper8sSamples
  /\ logMelEntry silence 798 0 = -10
  /\ idx (logMelMatrix silence) (0 * whisper8sFrames + 798) = 0
  /\ idx (logMelMatrix silence) (0 * whisper8sFrames + 797) = -10
  /\ idx (computeWhisperMelFromPadded silence) (0 * whisper8sFrames + 798) = 1
  /\ idx (computeWhisperMelFromPadded silence) (0 * whisper8sFrames + 797) = -1.
Proof.
  cbv zeta. set (silence := replicate whisper8sSamples 0).
  assert (length silence = whisper8sSamples) as Hlen by apply length_replicate.
  assert (forall t m, logMelEntry silence t m = -10) as Hsil.
  { intros t m. apply logMelEntry_silent. intros i _. apply idx_replicate. }
  destruct (logMelMatrix_spec silence Hlen) as [Hl Hs].
  assert (idx (logMelMatrix silence) (0 * whisper8sFrames + 798) = 0) as H798.
  { rewrite Hs by (unfold whisperNMels, whisper8sFrames; lia). reflexivity. }
  assert (idx (logMelMatrix silence) (0 * whisper8sFrames + 797) = -10) as H797.
  { rewrite Hs by (unfold whisperNMels, whisper8sFrames; lia).
    change (797 <? completeFrames)%nat with true. apply Hsil. }
  assert (maxValOf (logMelMatrix silence) = 0) as HM.
  { apply maxValOf_eq; [apply logMelMatrix_has_zero, Hlen | lra |].
    intros v Hin. apply In_idx_inv in Hin as (i & Hi & Ei). rewrite Hl in Hi.
    destruct (matrix_cell i Hi) as (m & t & Hm & Ht & ->).
    rewrite <- Ei, Hs by assumption.
    destruct (t <? completeFrames)%nat; [rewrite Hsil|]; lra. }
  split; [exact Hlen|]. split; [apply Hsil|]. split; [exact H798|]. split; [exact H797|].
  rewrite (fromPadded_full silence Hlen).
  rewrite !compress_idx by (rewrite Hl; unfold whisperNMels, whisper8sFrames; lia).
  rewrite H798, H797, HM. split.
  - rewrite Rmax_left by lra. lra.
  - rewrite Rmax_right by lra. lra.
Qed.



(** ** The validator and the resolver: the properties of the specification *)

Module Claims.
Import Cfg CfgProofs Resolver ResolverProofs.

#[local] Open Scope string_scope.

(** C4, at the input where the source departs from it.  The validator is to
    answer with the first violated invariant, and a VAD threshold that is
    not a number is not in [[0, 1]]; but both comparisons of the range check
    are false on it, and a configuration that is otherwise the one of the
    example, with both model files on disk, is accepted.  (Without a
    not-a-number in its [float32] fields a configuration gets the first
    violated invariant, in the order of the specification:
    [validateConfig_first_violated].) *)
Theorem validateConfig_accepts_nan_threshold :
  holds allExist nanThresholdConfig InvVadThreshold = false
  /\ firstViolated allExist nanThresholdConfig = Some InvVadThreshold
  /\ validateConfig allExist nanThresholdConfig = None.
Proof. split; [|split]; reflexivity. Qed.








End Claims.

(** ** Further properties of the feature extractor *)

Lemma ln10_pos : 0 < ln 10.
Proof. rewrite <- ln_1. apply ln_increasing; lra. Qed.

Lemma Rpower10_log10 (x : R) : 0 < x -> Rpower 10 (log10 x) = x.
Proof.
  intros Hx. pose proof ln10_pos. unfold Rpower, log10.
  replace (ln x / ln 10 * ln 10) with (ln x) by (field; lra).
  apply exp_ln, Hx.
Qed.

Lemma log10_Rpower10 (y : R) : log10 (Rpower 10 y) = y.
Proof.
  pose proof ln10_pos. unfold log10, Rpower. rewrite ln_exp. field. lra.
Qed.

Lemma Rpower10_gt_1 (y : R) : 0 < y -> 1 < Rpower 10 y.
Proof.
  intros Hy. pose proof ln10_pos. unfold Rpower. rewrite <- exp_0.
  apply exp_increasing. nra.
Qed.

Lemma melToHz_0 : melToHz 0 = 0.
Proof.
  unfold melToHz, Rpower. replace (0 / 2595 * ln 10) with 0 by lra.
  rewrite exp_0. lra.
Qed.

Lemma hzToMel_0 : hzToMel 0 = 0.
Proof.
  unfold hzToMel. replace (1 + 0 / 700) with 1 by lra. rewrite log10_1. lra.
Qed.

Lemma hzToMel_8000_pos : 0 < hzToMel 8000.
Proof.
  unfold hzToMel.
  assert (log10 1 < log10 (1 + 8000 / 700)) as H by (apply log10_increasing; lra).
  rewrite log10_1 in H. lra.
Qed.

Lemma melToHz_hzToMel (hz : R) : -700 < hz -> melToHz (hzToMel hz) = hz.
Proof.
  intros Hhz. unfold melToHz, hzToMel.
  replace (2595 * log10 (1 + hz / 700) / 2595) with (log10 (1 + hz / 700))
    by (field; lra).
  rewrite Rpower10_log10 by lra. field.
Qed.

Lemma hzToMel_melToHz (mel : R) : hzToMel (melToHz mel) = mel.
Proof.
  unfold melToHz, hzToMel.
  replace (1 + 700 * (Rpower 10 (mel / 2595) - 1) / 700)
    with (Rpower 10 (mel / 2595)) by (field; lra).
  rewrite log10_Rpower10. field.
Qed.

(** X1. The two conversions of the mel scale are inverse to each other:
    [melToHz (hzToMel hz) = hz] for every frequency above -700 Hz, and
    [hzToMel (melToHz mel) = mel] for every mel value; [hzToMel] is
    strictly increasing there. *)
Theorem mel_scale_round_trip (hz mel : R) :
  -700 < hz ->
  melToHz (hzToMel hz) = hz
  /\ hzToMel (melToHz mel) = mel
  /\ forall hz', hz < hz' -> hzToMel hz < hzToMel hz'.
Proof.
  intros Hhz. split; [|split].
  - apply melToHz_hzToMel, Hhz.
  - apply hzToMel_melToHz.
  - intros hz' Hlt. unfold hzToMel.
    assert (log10 (1 + hz / 700) < log10 (1 + hz' / 700))
      by (apply log10_increasing; lra).
    lra.
Qed.

Lemma mel_scale_round_trip_witness :
  -700 < 8000 /\ melToHz (hzToMel 8000) = 8000.
Proof.
  assert (-700 < 8000) as H by lra.
  split; [exact H | exact (proj1 (mel_scale_round_trip 8000 0 H))].
Defined.

Lemma hzPoint_0 (nMels : nat) : hzPoint nMels 0 = 0.
Proof.
  unfold hzPoint, melPoint. rewrite hzToMel_0. simpl INR.
  replace (0 + (hzToMel 8000 - 0) * 0 / INR (nMels + 1)) with 0
    by (unfold Rdiv; ring).
  apply melToHz_0.
Qed.

Lemma hzPoint_pos (nMels i : nat) : (0 < i)%nat -> 0 < hzPoint nMels i.
Proof.
  intros Hi. unfold hzPoint, melPoint, melToHz. rewrite hzToMel_0.
  pose proof hzToMel_8000_pos as Hc.
  assert (0 < INR i) as Hi' by (apply lt_0_INR, Hi).
  assert (0 < INR (nMels + 1)) as Hn by (apply lt_0_INR; lia).
  assert (0 < / INR (nMels + 1)) as Hinv by (apply Rinv_0_lt_compat, Hn).
  assert (0 < hzToMel 8000 * INR i * / INR (nMels + 1)) as HP
    by (apply Rmult_lt_0_compat; [apply Rmult_lt_0_compat|]; assumption).
  replace (0 + (hzToMel 8000 - 0) * INR i / INR (nMels + 1))
    with (hzToMel 8000 * INR i * / INR (nMels + 1)) by (unfold Rdiv; ring).
  assert (0 < hzToMel 8000 * INR i * / INR (nMels + 1) / 2595) as Hm by lra.
  pose proof (Rpower10_gt_1 _ Hm). lra.
Qed.

Lemma binFreq_0 (nBins : nat) : binFreq nBins 0 = 0.
Proof. unfold binFreq. simpl INR. unfold Rdiv. ring. Qed.

Lemma melWeight_dc (nMels nBins m : nat) : melWeight nMels nBins m 0 = 0.
Proof.
  unfold melWeight. cbv zeta. rewrite binFreq_0.
  pose proof (hzPoint_pos nMels (m + 1) ltac:(lia)) as Hc.
  assert (0 <= hzPoint nMels m) as Hl.
  { destruct m as [|m]; [rewrite hzPoint_0; lra|].
    left. apply hzPoint_pos. lia. }
  destruct (bool_decide (hzPoint nMels m <= 0) && bool_decide (0 <= hzPoint nMels (m + 1)))
    eqn:E1.
  - apply andb_prop in E1 as [H1 _]. apply bool_decide_eq_true in H1.
    replace (hzPoint nMels m) with 0 by lra. unfold Rdiv. ring.
  - rewrite (bool_decide_false (hzPoint nMels (m + 1) < 0)) by lra. reflexivity.
Qed.








Lemma INR_200 : INR 200 = 200.
Proof. rewrite INR_IZR_INZ. reflexivity. Qed.

Lemma hann_range (i : nat) : 0 <= hann i <= 1.
Proof.
  unfold hann.
  pose proof (COS_bound (2 * PI * INR i / INR whisperNFFT)) as [H1 H2]. lra.
Qed.

Lemma hann_mirror (i : nat) :
  (i <= whisperNFFT)%nat -> hann (whisperNFFT - i) = hann i.
Proof.
  intros Hi. unfold hann. rewrite minus_INR by exact Hi.
  unfold whisperNFFT. rewrite INR_400.
  replace (2 * PI * (400 - INR i) / 400) with (2 * PI - 2 * PI * INR i / 400)
    by field.
  rewrite cos_minus, cos_2PI, sin_2PI. do 2 f_equal. ring.
Qed.

(** X5. The window of [computeWhisperMelFromPadded] has 400 weights between
    0 and 1; it starts at 0, reaches 1 in the middle, at sample 200, and is
    symmetric about it: the weight of sample [400 - i] is that of sample
    [i]. *)
Theorem hann_window_shape :
  length hannWindow = whisperNFFT
  /\ (forall i, (i < whisperNFFT)%nat -> 0 <= idx hannWindow i <= 1)
  /\ idx hannWindow 0 = 0
  /\ idx hannWindow 200 = 1
  /\ (forall i, (0 < i < whisperNFFT)%nat ->
        idx hannWindow (whisperNFFT - i) = idx hannWindow i).
Proof.
  destruct hannWindow_spec as [Hl Hs].
  split; [exact Hl|]. split; [|split; [|split]].
  - intros i Hi. rewrite Hs by exact Hi. apply hann_range.
  - rewrite Hs by (unfold whisperNFFT; lia). unfold hann.
    replace (2 * PI * INR 0 / INR whisperNFFT) with 0
      by (change (INR 0) with 0; unfold Rdiv; ring).
    rewrite cos_0. lra.
  - rewrite Hs by (unfold whisperNFFT; lia). unfold hann, whisperNFFT.
    rewrite INR_200, INR_400.
    replace (2 * PI * 200 / 400) with PI by field.
    rewrite cos_PI. lra.
  - intros i Hi. rewrite !Hs by lia. apply hann_mirror. lia.
Qed.

Lemma samples_pos : (0 < whisper8sSamples)%nat.
Proof. unfold whisper8sSamples. lia. Qed.

(** X6. For a non-empty input the feature extractor returns a matrix of 80
    bands by 800 frames, 64,000 values, whatever the length of the
    input. *)
Theorem output_shape (audio : list R) :
  audio <> [] ->
  length (computeWhisperMel audio) = (whisperNMels * whisper8sFrames)%nat
  /\ Z.of_nat (whisperNMels * whisper8sFrames) = 64000%Z.
Proof.
  intros Hne. rewrite (computeWhisperMel_nonempty audio Hne), compress_length.
  split; [|reflexivity].
  apply logMelMatrix_spec, paddedBuffer_length.
Qed.

Lemma output_shape_witness :
  [1] <> [] /\ length (computeWhisperMel [1]) = (whisperNMels * whisper8sFrames)%nat.
Proof.
  assert ([1] <> []) as H by discriminate.
  split; [exact H | exact (proj1 (output_shape [1] H))].
Defined.

Lemma nonempty_of_length (l : list R) : (0 < length l)%nat -> l <> [].
Proof. intros H ->. simpl in H. lia. Qed.

(** X7. Only the final 128,000 samples of the input matter: whatever
    precedes them changes nothing in the features. *)
Theorem only_last_window_matters (before last : list R) :
  length last = whisper8sSamples ->
  computeWhisperMel (before ++ last) = computeWhisperMel last.
Proof.
  intros Hlen. pose proof samples_pos as Hpos.
  assert (last <> []) as Hne by (apply nonempty_of_length; lia).
  assert (before ++ last <> []) as Hne'
    by (apply nonempty_of_length; rewrite length_app; lia).
  rewrite (computeWhisperMel_nonempty _ Hne), (computeWhisperMel_nonempty _ Hne').
  rewrite (paddedBuffer_spec _ Hne), (paddedBuffer_spec _ Hne').
  assert (lastWindow (before ++ last) = lastWindow last) as ->; [|reflexivity].
  unfold lastWindow. rewrite length_app, Hlen.
  replace (length before + whisper8sSamples - whisper8sSamples)%nat
    with (length before) by lia.
  rewrite Nat.sub_diag. rewrite drop_app_length. reflexivity.
Qed.

Lemma only_last_window_matters_witness :
  length (replicate whisper8sSamples 0) = whisper8sSamples
  /\ computeWhisperMel ([1; 2] ++ replicate whisper8sSamples 0)
     = computeWhisperMel (replicate whisper8sSamples 0).
Proof.
  pose proof (length_replicate whisper8sSamples 0) as H.
  split; [exact H | exact (only_last_window_matters [1; 2] _ H)].
Defined.








Lemma Rsum_affine (a b : R) (l : list R) :
  Rsum (map (fun v => a * v + b) l) = a * Rsum l + INR (length l) * b.
Proof.
  induction l as [|x l IH].
  - simpl. ring.
  - cbn [map Rsum fold_right length]. fold (Rsum l).
    fold (Rsum (map (fun v => a * v + b) l)). rewrite IH, S_INR. ring.
Qed.

Lemma INR_length_neq_0 (l : list R) : l <> [] -> INR (length l) <> 0.
Proof.
  intros H. apply not_0_INR. destruct l; [congruence | simpl; lia].
Qed.

Lemma mean_affine (a b : R) (l : list R) :
  l <> [] -> mean (map (fun v => a * v + b) l) = a * mean l + b.
Proof.
  intros Hne. unfold mean. rewrite Rsum_affine, length_map.
  pose proof (INR_length_neq_0 l Hne). field. assumption.
Qed.

Lemma pvariance_affine (a b : R) (l : list R) :
  l <> [] -> pvariance (map (fun v => a * v + b) l) = a * a * pvariance l.
Proof.
  intros Hne. unfold pvariance. rewrite (mean_affine a b l Hne), length_map.
  rewrite map_map.
  rewrite (map_ext _ (fun v => a * a * ((v - mean l) * (v - mean l))))
    by (intros v; ring).
  rewrite <- (map_map (fun v => (v - mean l) * (v - mean l))
                      (fun y => a * a * y)).
  rewrite Rsum_scale. unfold Rdiv. ring.
Qed.

Lemma normalise_affine (a b : R) (l : list R) :
  l <> [] -> 0 < a -> 1e-7 <= pvariance l -> 1e-7 <= a * a * pvariance l ->
  normalise (map (fun v => a * v + b) l) = normalise l.
Proof.
  intros Hne Ha Hv Hv'. unfold normalise.
  rewrite (mean_affine a b l Hne), (pvariance_affine a b l Hne), map_map.
  rewrite !Rmax_left by lra.
  assert (0 < sqrt (pvariance l)) as Hs by (apply sqrt_lt_R0; lra).
  rewrite sqrt_mult by nra. rewrite sqrt_square by lra.
  apply map_ext. intros v. field. lra.
Qed.

(** X9. Gain and offset do not change the features: when the samples are
    multiplied by [a > 0] and shifted by [b], the normalisation undoes
    both, as long as the variance of the kept samples is at the floor 1e-7
    or above before and after. *)
Theorem gain_offset_invariance (audio : list R) (a b : R) :
  audio <> [] -> 0 < a ->
  1e-7 <= pvariance (lastWindow audio) ->
  1e-7 <= a * a * pvariance (lastWindow audio) ->
  computeWhisperMel (map (fun v => a * v + b) audio) = computeWhisperMel audio.
Proof.
  intros Hne Ha Hv Hv'.
  assert (map (fun v => a * v + b) audio <> []) as Hne'
    by (destruct audio; [congruence | discriminate]).
  rewrite (computeWhisperMel_nonempty _ Hne), (computeWhisperMel_nonempty _ Hne').
  rewrite (paddedBuffer_spec _ Hne), (paddedBuffer_spec _ Hne').
  assert (lastWindow (map (fun v => a * v + b) audio)
          = map (fun v => a * v + b) (lastWindow audio)) as ->.
  { unfold lastWindow. rewrite length_map. apply skipn_map. }
  assert (lastWindow audio <> []) as Hw.
  { apply nonempty_of_length. rewrite lastWindow_length.
    pose proof samples_pos. destruct audio; [congruence | cbn [length]; lia]. }
  rewrite length_map, (normalise_affine a b _ Hw Ha Hv Hv'). reflexivity.
Qed.

Lemma lastWindow_short (audio : list R) :
  (length audio <= whisper8sSamples)%nat -> lastWindow audio = audio.
Proof.
  intros H. unfold lastWindow.
  replace (length audio - whisper8sSamples)%nat with 0%nat by lia. reflexivity.
Qed.

Lemma gain_offset_invariance_witness :
  [1; 3] <> [] /\ 0 < 2
  /\ 1e-7 <= pvariance (lastWindow [1; 3])
  /\ 1e-7 <= 2 * 2 * pvariance (lastWindow [1; 3])
  /\ computeWhisperMel (map (fun v => 2 * v + 1) [1; 3]) = computeWhisperMel [1; 3].
Proof.
  assert ([1; 3] <> []) as H by discriminate.
  assert (0 < 2) as H2 by lra.
  assert (pvariance (lastWindow [1; 3]) = 1) as E.
  { rewrite lastWindow_short by (unfold whisper8sSamples; cbn [length]; lia).
    unfold pvariance, mean. simpl. lra. }
  assert (1e-7 <= pvariance (lastWindow [1; 3])) as Hv by (rewrite E; lra).
  assert (1e-7 <= 2 * 2 * pvariance (lastWindow [1; 3])) as Hv' by (rewrite E; lra).
  split; [exact H|]. split; [exact H2|]. split; [exact Hv|]. split; [exact Hv'|].
  exact (gain_offset_invariance [1; 3] 2 1 H H2 Hv Hv').
Defined.

Lemma melEnergy_ext (padded padded' : list R) (t m : nat) :
  (forall i, (i < whisperNFFT)%nat ->
     idx padded (t * whisperHop + i) = idx padded' (t * whisperHop + i)) ->
  melEnergy padded t m = melEnergy padded' t m.
Proof.
  intros H. unfold melEnergy. apply sumN_ext. intros k _. f_equal.
  apply dftPower_ext. intros i Hi. unfold frameSample. rewrite H by exact Hi.
  reflexivity.
Qed.

(** X10. A column of the matrix before the compression depends on its own
    frame only: two padded buffers that agree on the 400 samples from
    [160 t] on have the same column [t], in every band. *)
Theorem frame_locality (padded padded' : list R) (t : nat) :
  length padded = whisper8sSamples ->
  length padded' = whisper8sSamples ->
  (t < whisper8sFrames)%nat ->
  (forall i, (i < whisperNFFT)%nat ->
     idx padded (t * whisperHop + i) = idx padded' (t * whisperHop + i)) ->
  forall m, (m < whisperNMels)%nat ->
    idx (logMelMatrix padded) (m * whisper8sFrames + t)
    = idx (logMelMatrix padded') (m * whisper8sFrames + t).
Proof.
  intros Hl Hl' Ht Hagree m Hm.
  rewrite (proj2 (logMelMatrix_spec padded Hl)) by assumption.
  rewrite (proj2 (logMelMatrix_spec padded' Hl')) by assumption.
  destruct (t <? completeFrames)%nat; [|reflexivity].
  unfold logMelEntry. cbv zeta.
  rewrite (melEnergy_ext padded padded' t m Hagree). reflexivity.
Qed.

Lemma frame_locality_witness :
  idx (logMelMatrix (replicate whisper8sSamples 0)) (0 * whisper8sFrames + 1)
  = idx (logMelMatrix (<[0%nat := 1]> (replicate whisper8sSamples 0)))
        (0 * whisper8sFrames + 1).
Proof.
  apply (frame_locality (replicate whisper8sSamples 0)
           (<[0%nat := 1]> (replicate whisper8sSamples 0)) 1).
  - apply length_replicate.
  - rewrite length_insert. apply length_replicate.
  - unfold whisper8sFrames. lia.
  - intros i _. rewrite idx_insert_ne by (unfold whisperHop; lia). reflexivity.
  - unfold whisperNMels. lia.
Defined.




(** X12. In the returned matrix the last two columns, 798 and 799, hold
    one value in all 80 bands, [(max 0 (M - 8) + 4) / 4], which is 1 at
    least: they are the compressed zeros of the columns that no frame
    fills. *)
Theorem last_columns_of_output (audio : list R) :
  audio <> [] ->
  forall m t, (m < whisperNMels)%nat -> (completeFrames <= t < whisper8sFrames)%nat ->
    idx (computeWhisperMel audio) (m * whisper8sFrames + t)
    = (Rmax 0 (maxValOf (logMelMatrix (paddedBuffer audio)) - 8) + 4) / 4
    /\ 1 <= idx (computeWhisperMel audio) (m * whisper8sFrames + t).
Proof.
  intros Hne m t Hm Ht. pose proof (paddedBuffer_length audio) as Hlen.
  destruct (logMelMatrix_spec _ Hlen) as [Hl Hs].
  rewrite (computeWhisperMel_nonempty audio Hne).
  rewrite compress_idx
    by (rewrite Hl; unfold whisperNMels, whisper8sFrames in *; nia).
  rewrite Hs by lia. rewrite (proj2 (Nat.ltb_ge t completeFrames)) by lia.
  split; [reflexivity|].
  pose proof (Rmax_l 0 (maxValOf (logMelMatrix (paddedBuffer audio)) - 8)). lra.
Qed.

Lemma last_columns_of_output_witness :
  [1] <> []
  /\ 1 <= idx (computeWhisperMel [1]) (0 * whisper8sFrames + 799).
Proof.
  assert ([1] <> []) as H by discriminate.
  split; [exact H|].
  apply (last_columns_of_output [1] H 0 799).
  - unfold whisperNMels. lia.
  - unfold completeFrames, whisper8sFrames. lia.
Defined.

Lemma hzPoint_last (nMels : nat) : hzPoint nMels (nMels + 1) = 8000.
Proof.
  unfold hzPoint, melPoint. rewrite hzToMel_0.
  assert (INR (nMels + 1) <> 0) by (apply not_0_INR; lia).
  replace (0 + (hzToMel 8000 - 0) * INR (nMels + 1) / INR (nMels + 1))
    with (hzToMel 8000) by (field; assumption).
  apply melToHz_hzToMel. lra.
Qed.

Lemma hzPoint_1_1 : 0 < hzPoint 1 1 < 2100.
Proof.
  split; [apply hzPoint_pos; lia|].
  unfold hzPoint, melPoint, melToHz. rewrite hzToMel_0.
  change (INR (1 + 1)) with (1 + 1). change (INR 1) with 1.
  set (r := Rpower 10 ((0 + (hzToMel 8000 - 0) * 1 / (1 + 1)) / 2595)).
  assert (0 < r) as Hr by apply exp_pos.
  assert (r * r = 87 / 7) as Hrr.
  { unfold r. rewrite <- Rpower_plus.
    replace ((0 + (hzToMel 8000 - 0) * 1 / (1 + 1)) / 2595
             + (0 + (hzToMel 8000 - 0) * 1 / (1 + 1)) / 2595)
      with (hzToMel 8000 / 2595) by field.
    unfold hzToMel.
    replace (2595 * log10 (1 + 8000 / 700) / 2595) with (log10 (1 + 8000 / 700))
      by field.
    rewrite Rpower10_log10 by lra. lra. }
  nra.
Qed.

(** X13. The cache of [getMelFilterbank] does not change what a program
    gets that asks for one shape only, as the feature extractor does: on an
    empty cache, or on one that holds the table of this shape, the call
    returns the table of the shape and leaves it cached. *)
Theorem filterbank_cache_same_shape (cache : option (list R)) (nMels nBins : nat) :
  cache = None \/ cache = Some (getMelFilterbank nMels nBins) ->
  getMelFilterbankCached cache nMels nBins
  = (getMelFilterbank nMels nBins, Some (getMelFilterbank nMels nBins)).
Proof.
  intros [->| ->]; unfold getMelFilterbankCached; [reflexivity|].
  rewrite (proj1 (getMelFilterbank_spec nMels nBins)), Nat.eqb_refl.
  reflexivity.
Qed.

Lemma filterbank_cache_same_shape_witness :
  (@None (list R) = None \/ None = Some (getMelFilterbank whisperNMels 201))
  /\ getMelFilterbankCached None whisperNMels 201
     = (getMelFilterbank whisperNMels 201, Some (getMelFilterbank whisperNMels 201)).
Proof.
  assert (@None (list R) = None \/ None = Some (getMelFilterbank whisperNMels 201))
    as H by (left; reflexivity).
  split; [exact H | exact (filterbank_cache_same_shape None whisperNMels 201 H)].
Defined.

(** X14. The cache of [getMelFilterbank] is keyed by the number of entries
    only.  After a call for [a] bands and [b] bins, a call for [b] bands
    and [a] bins finds a table of the length it needs and returns it: the
    table of the first shape.  With 1 band and 3 bins first, the call for 3
    bands and 1 bin returns a table whose entry 1 is positive, where the
    table of its own shape holds 0. *)
Theorem filterbank_cache_keyed_by_size (a b : nat) :
  getMelFilterbankCached (snd (getMelFilterbankCached None a b)) b a
  = (getMelFilterbank a b, Some (getMelFilterbank a b))
  /\ 0 < idx (fst (getMelFilterbankCached (snd (getMelFilterbankCached None 1 3)) 3 1)) 1
  /\ idx (getMelFilterbank 3 1) 1 = 0.
Proof.
  assert (forall a b,
            getMelFilterbankCached (snd (getMelFilterbankCached None a b)) b a
            = (getMelFilterbank a b, Some (getMelFilterbank a b))) as Hgen.
  { intros a' b'. cbn [getMelFilterbankCached snd].
    rewrite (proj1 (getMelFilterbank_spec a' b')).
    rewrite (proj2 (Nat.eqb_eq _ _) (Nat.mul_comm a' b')). reflexivity. }
  split; [apply Hgen|]. split.
  - rewrite Hgen. cbn [fst].
    change (idx (getMelFilterbank 1 3) 1)
      with (idx (getMelFilterbank 1 3) (0 * 3 + 1)).
    rewrite (proj2 (getMelFilterbank_spec 1 3) 0%nat 1%nat) by lia.
    unfold melWeight. cbv zeta.
    change (0 + 1)%nat with 1%nat. change (0 + 2)%nat with (1 + 1)%nat.
    rewrite hzPoint_0, hzPoint_last.
    pose proof hzPoint_1_1 as [Hc1 Hc2].
    assert (binFreq 3 1 = 4000) as ->.
    { unfold binFreq. change (INR 1) with 1.
      change (INR (2 * (3 - 1))) with (INR 4).
      replace (INR 4) with 4 by (rewrite INR_IZR_INZ; reflexivity). lra. }
    rewrite (bool_decide_false (4000 <= hzPoint 1 1)) by lra.
    rewrite andb_false_r.
    rewrite (bool_decide_true (hzPoint 1 1 < 4000)) by lra.
    rewrite (bool_decide_true (4000 <= 8000)) by lra. cbn [andb].
    apply Rdiv_lt_0_compat; lra.
  - change (idx (getMelFilterbank 3 1) 1)
      with (idx (getMelFilterbank 3 1) (1 * 1 + 0)).
    rewrite (proj2 (getMelFilterbank_spec 3 1) 1%nat 0%nat) by lia.
    apply melWeight_dc.
Qed.

(** X15. The compression keeps the order of the entries: an entry that is
    not above another before the compression is not above it after. *)
Theorem compression_keeps_order (mel : list R) (i j : nat) :
  (i < length mel)%nat -> (j < length mel)%nat ->
  idx mel i <= idx mel j ->
  idx (compress mel) i <= idx (compress mel) j.
Proof.
  intros Hi Hj Hle. rewrite !compress_idx by assumption.
  assert (Rmax (idx mel i) (maxValOf mel - 8) <= Rmax (idx mel j) (maxValOf mel - 8)).
  { apply Rmax_lub.
    - etransitivity; [exact Hle | apply Rmax_l].
    - apply Rmax_r. }
  lra.
Qed.

Lemma compression_keeps_order_witness :
  (0 < length [(-9)%R; 0%R])%nat /\ (1 < length [(-9)%R; 0%R])%nat
  /\ idx [-9; 0] 0 <= idx [-9; 0] 1
  /\ idx (compress [-9; 0]) 0 <= idx (compress [-9; 0]) 1.
Proof.
  assert (0 < length [(-9)%R; 0%R])%nat as H0 by (simpl; lia).
  assert (1 < length [(-9)%R; 0%R])%nat as H1 by (simpl; lia).
  assert (idx [-9; 0] 0 <= idx [-9; 0] 1) as Hle by (unfold idx; simpl; lra).
  split; [exact H0|]. split; [exact H1|]. split; [exact Hle|].
  exact (compression_keeps_order [-9; 0] 0 1 H0 H1 Hle).
Defined.

(** ** Further properties of the validator and the resolver *)

Module Extras.
Import Cfg CfgProofs Resolver ResolverProofs Example.

#[local] Open Scope string_scope.

Lemma range_check_false (x : float32) :
  SFltb x f32_0 || SFltb f32_1 x = false ->
  isNaN x = true \/ inUnitInterval x = true.
Proof.
  intros H. destruct (isNaN x) eqn:E; [left; reflexivity | right].
  rewrite (range_check x E) in H. apply negb_false_iff, H.
Qed.

Lemma positive_check_false (x : float32) :
  SFleb x f32_0 = false -> isNaN x = true \/ positive32 x = true.
Proof.
  intros H. destruct (isNaN x) eqn:E; [left; reflexivity | right].
  rewrite (positive_check x E) in H. apply negb_false_iff, H.
Qed.

(** X16. What an accepted configuration is known to satisfy: the sample
    rate is 16000 and the chunk size 512, the integer durations have their
    signs, both model paths are non-empty and [os.Stat] finds both files;
    and each of the three [float32] fields either lies in its range or is
    not a number, the one value the comparisons of the validator let
    through. *)
Theorem accepted_configuration (stat : string -> StatResult) (cfg : Config) :
  validateConfig stat cfg = None ->
  (SampleRate cfg = 16000 /\ ChunkSize cfg = 512)%Z
  /\ (0 <= VadPreSpeechMs cfg /\ 0 < VadStopMs cfg
      /\ 0 < TurnSegmentEmitMs cfg /\ 0 < TurnTimeoutMs cfg)%Z
  /\ SileroVADModelPath cfg <> "" /\ SmartTurnModelPath cfg <> ""
  /\ stat (SileroVADModelPath cfg) = StatOk
  /\ stat (SmartTurnModelPath cfg) = StatOk
  /\ (isNaN (VadThreshold cfg) = true \/ inUnitInterval (VadThreshold cfg) = true)
  /\ (isNaN (TurnMaxDurationSeconds cfg) = true
      \/ positive32 (TurnMaxDurationSeconds cfg) = true)
  /\ (isNaN (TurnThreshold cfg) = true \/ inUnitInterval (TurnThreshold cfg) = true).
Proof.
  unfold validateConfig, RequiredSampleRate, RequiredChunkSize. intros H.
  destruct (SampleRate cfg =? 16000)%Z eqn:E1; [|discriminate].
  destruct (ChunkSize cfg =? 512)%Z eqn:E2; [|discriminate].
  cbn [negb] in H.
  destruct (SFltb (VadThreshold cfg) f32_0 || SFltb f32_1 (VadThreshold cfg))
    eqn:E3; [discriminate|].
  destruct (VadPreSpeechMs cfg <? 0)%Z eqn:E4; [discriminate|].
  destruct (VadStopMs cfg <=? 0)%Z eqn:E5; [discriminate|].
  destruct (SFleb (TurnMaxDurationSeconds cfg) f32_0) eqn:E6; [discriminate|].
  destruct (TurnSegmentEmitMs cfg <=? 0)%Z eqn:E7; [discriminate|].
  destruct (SFltb (TurnThreshold cfg) f32_0 || SFltb f32_1 (TurnThreshold cfg))
    eqn:E8; [discriminate|].
  destruct (TurnTimeoutMs cfg <=? 0)%Z eqn:E9; [discriminate|].
  destruct (bool_decide (SileroVADModelPath cfg = "")) eqn:E10; [discriminate|].
  destruct (bool_decide (SmartTurnModelPath cfg = "")) eqn:E11; [discriminate|].
  destruct (stat (SileroVADModelPath cfg)) eqn:E12; try discriminate.
  destruct (stat (SmartTurnModelPath cfg)) eqn:E13; try discriminate.
  apply Z.eqb_eq in E1, E2. apply Z.ltb_ge in E4.
  apply Z.leb_gt in E5, E7, E9.
  apply bool_decide_eq_false in E10, E11.
  repeat split; try assumption; try reflexivity.
  - apply range_check_false, E3.
  - apply positive_check_false, E6.
  - apply range_check_false, E8.
Qed.

Lemma accepted_configuration_witness :
  validateConfig allExist exampleConfig = None
  /\ (SampleRate exampleConfig = 16000 /\ ChunkSize exampleConfig = 512)%Z.
Proof.
  assert (validateConfig allExist exampleConfig = None) as H by reflexivity.
  split; [exact H | exact (proj1 (accepted_configuration allExist exampleConfig H))].
Defined.

(** X17. A configuration without a not-a-number in its [float32] fields
    gets the error of the first invariant that it violates, in the order of
    the checks, and no error when it violates none. *)
Theorem first_violation_reported (stat : string -> StatResult) (cfg : Config) :
  isNaN (VadThreshold cfg) = false ->
  isNaN (TurnMaxDurationSeconds cfg) = false ->
  isNaN (TurnThreshold cfg) = false ->
  validateConfig stat cfg = errorOf stat cfg <$> firstViolated stat cfg
  /\ (validateConfig stat cfg = None <->
      forall i, In i checkOrder -> holds stat cfg i = true).
Proof.
  intros H1 H2 H3.
  pose proof (validateConfig_first_violated stat cfg H1 H2 H3) as E.
  split; [exact E|]. rewrite E. unfold firstViolated. split.
  - intros Hn. destruct (List.find _ checkOrder) eqn:Ef; [discriminate|].
    intros i Hi. pose proof (find_none _ _ Ef i Hi) as Hh.
    apply negb_false_iff, Hh.
  - intros Hall. destruct (List.find _ checkOrder) eqn:Ef; [|reflexivity].
    apply find_some in Ef as [Hin Hneg]. rewrite (Hall _ Hin) in Hneg.
    discriminate.
Qed.

Lemma first_violation_reported_witness :
  isNaN (VadThreshold cdRateConfig) = false
  /\ isNaN (TurnMaxDurationSeconds cdRateConfig) = false
  /\ isNaN (TurnThreshold cdRateConfig) = false
  /\ validateConfig (fun _ => StatNotExist) cdRateConfig
     = Some "config: SampleRate must be 16000".
Proof.
  assert (isNaN (VadThreshold cdRateConfig) = false) as H1 by reflexivity.
  assert (isNaN (TurnMaxDurationSeconds cdRateConfig) = false) as H2 by reflexivity.
  assert (isNaN (TurnThreshold cdRateConfig) = false) as H3 by reflexivity.
  split; [exact H1|]. split; [exact H2|]. split; [exact H3|].
  rewrite (proj1 (first_violation_reported (fun _ => StatNotExist) cdRateConfig
                    H1 H2 H3)).
  reflexivity.
Defined.

(** X18. The disk is looked at only after every field has passed: a
    configuration that is rejected although both files are there is
    rejected with the same error whatever is on the disk. *)
Theorem field_errors_ignore_disk (stat : string -> StatResult) (cfg : Config)
    (err : string) :
  validateConfig allExist cfg = Some err ->
  validateConfig stat cfg = Some err.
Proof.
  unfold validateConfig, allExist.
  repeat (match goal with
          | |- context [if ?b then _ else _] => destruct b; [exact (fun H => H)|]
          end).
  discriminate.
Qed.

Lemma field_errors_ignore_disk_witness :
  validateConfig allExist cdRateConfig = Some "config: SampleRate must be 16000"
  /\ validateConfig permissionDenied cdRateConfig
     = Some "config: SampleRate must be 16000".
Proof.
  assert (validateConfig allExist cdRateConfig
          = Some "config: SampleRate must be 16000") as H by reflexivity.
  split; [exact H | exact (field_errors_ignore_disk permissionDenied cdRateConfig _ H)].
Defined.

(** X19. When every field has passed, the answer of [os.Stat] for the
    Silero file decides: an error other than not-exist is returned as it
    is, a missing file gets the message with the path, and in both cases
    the Smart-Turn file is not looked at. *)
Theorem stat_error_passed_through (stat : string -> StatResult) (cfg : Config) :
  validateConfig allExist cfg = None ->
  (forall err, stat (SileroVADModelPath cfg) = StatError err ->
     validateConfig stat cfg = Some err)
  /\ (stat (SileroVADModelPath cfg) = StatNotExist ->
      validateConfig stat cfg
      = Some ("config: Silero VAD model file not found: " ++ SileroVADModelPath cfg))
  /\ (stat (SileroVADModelPath cfg) <> StatOk ->
      forall stat', stat' (SileroVADModelPath cfg) = stat (SileroVADModelPath cfg) ->
        validateConfig stat' cfg = validateConfig stat cfg).
Proof.
  unfold validateConfig, allExist.
  repeat (match goal with
          | |- context [if ?b then _ else _] => destruct b; [discriminate|]
          end).
  intros _. split; [|split].
  - intros err ->. reflexivity.
  - intros ->. reflexivity.
  - intros Hne stat' ->. destruct (stat (SileroVADModelPath cfg)); congruence.
Qed.

Lemma stat_error_passed_through_witness :
  validateConfig allExist exampleConfig = None
  /\ validateConfig permissionDenied exampleConfig
     = Some "stat models/silero_vad.onnx: permission denied".
Proof.
  assert (validateConfig allExist exampleConfig = None) as H by reflexivity.
  split; [exact H|].
  exact (proj1 (stat_error_passed_through permissionDenied exampleConfig H)
           _ eq_refl).
Defined.

Lemma thenAbs_fetched (h : Host) (r : result string * World) :
  fetched (snd (thenAbs h r)) = fetched (snd r).
Proof. destruct r as [[p|e] w]; reflexivity. Qed.


Lemma downloadFile_frame (h : Host) (o : Outside)
    (url destDir destName : string) (w : World) (q : string) :
  q <> filepath_Join h [destDir; destName] ->
  q <> filepath_Join h [destDir; destName] ++ ".tmp" ->
  files (snd (downloadFile h o url destDir destName w)) !! q = files w !! q.
Proof.
  intros Hq Htmp. unfold downloadFile. cbv zeta.
  set (path := filepath_Join h [destDir; destName]) in *.
  destruct (pathExists w path); [reflexivity|].
  destruct (os_MkdirAll o destDir); [reflexivity|].
  destruct (http_Get o url) as [resp|err]; [|reflexivity].
  destruct (negb (StatusCode resp =? http_StatusOK)%Z); [reflexivity|].
  destruct (os_Create o (path ++ ".tmp")); [reflexivity|].
  assert (files (remove (path ++ ".tmp")
                   (write (path ++ ".tmp") (Body resp)
                      (write (path ++ ".tmp") "" (request url w)))) !! q
          = files w !! q) as Hrm.
  { rewrite files_tmp_removed. apply lookup_delete_ne. congruence. }
  destruct (CopyErr resp); [exact Hrm|].
  destruct (String.length (Body resp) =? 0)%nat; [exact Hrm|].
  destruct (os_Rename o (path ++ ".tmp") path); [exact Hrm|].
  cbn [snd]. unfold rename, write, request. cbn [files].
  rewrite lookup_insert_eq. cbn [files].
  rewrite lookup_insert_ne by congruence.
  rewrite lookup_delete_ne by congruence.
  rewrite !lookup_insert_ne by congruence. reflexivity.
Qed.




Lemma thenAbs_exists (h : Host) (o : Outside) (url dir name : string)
    (w w1 : World) (p : string) :
  thenAbs h (downloadFile h o url dir name w) = (Ok p, w1) ->
  pathExists w1 (filepath_Join h [dir; name]) = true
  /\ filepath_Abs h (filepath_Join h [dir; name]) = Ok p.
Proof.
  destruct (downloadFile h o url dir name w) as [[path|err] w'] eqn:Hd;
    cbn [thenAbs]; [|discriminate].
  intros [= Habs <-].
  destruct (downloadFile_success _ _ _ _ _ _ _ _ Hd) as (-> & Hsome & _).
  split; [apply pathExists_true, Hsome | exact Habs].
Qed.

(** X22. A resolution that succeeds leaves the file on the disk: the model,
    or the library of a platform with a download URL, exists in the given
    directory under its name, and the path returned is what
    [filepath.Abs] makes of that location. *)
Theorem resolved_file_exists (h : Host) (o : Outside) (dir : string)
    (w w1 : World) (p : string) :
  (ResolveSileroVAD h o dir w = (Ok p, w1) ->
     pathExists w1 (filepath_Join h [dir; sileroVADName]) = true
     /\ filepath_Abs h (filepath_Join h [dir; sileroVADName]) = Ok p)
  /\ (ResolveSmartTurn h o dir w = (Ok p, w1) ->
       pathExists w1 (filepath_Join h [dir; smartTurnName]) = true
       /\ filepath_Abs h (filepath_Join h [dir; smartTurnName]) = Ok p)
  /\ (onnxRuntimeURL h <> "" ->
       ResolveONNXRuntimeLibWithDownload h o dir w = (Ok p, w1) ->
       pathExists w1
         (filepath_Join h [dir; filepath_Base h (onnxRuntimeURL h)]) = true
       /\ filepath_Abs h
            (filepath_Join h [dir; filepath_Base h (onnxRuntimeURL h)]) = Ok p).
Proof.
  split; [|split].
  - apply (thenAbs_exists h o urlSileroVAD dir sileroVADName).
  - apply (thenAbs_exists h o urlSmartTurn dir smartTurnName).
  - intros Hurl. unfold ResolveONNXRuntimeLibWithDownload. cbv zeta.
    rewrite bool_decide_false by exact Hurl.
    apply (thenAbs_exists h o (onnxRuntimeURL h) dir
             (filepath_Base h (onnxRuntimeURL h))).
Qed.

(** X23. The path-only resolution of the runtime library answers with a
    path that exists whenever one of the bundle locations exists, and that
    path is one of the locations. *)
Theorem bundled_library_found (h : Host) (w : World) (q : string) :
  In q (bundleCandidates h) -> pathExists w q = true ->
  pathExists w (ResolveONNXRuntimeLib h w) = true
  /\ In (ResolveONNXRuntimeLib h w) (bundleCandidates h).
Proof.
  intros Hin Hex. rewrite ResolveONNXRuntimeLib_first. unfold firstExisting.
  destruct (List.find (pathExists w) (bundleCandidates h)) as [p|] eqn:Ef.
  - apply find_some in Ef as [Hp Hpe]. cbn [default]. split; assumption.
  - pose proof (find_none _ _ Ef q Hin) as Hno. congruence.
Qed.

Lemma bundled_library_found_witness :
  In "/srv/app/lib/linux_amd64/libonnxruntime.so" (bundleCandidates linuxAmd64)
  /\ pathExists
       {| files := {["/srv/app/lib/linux_amd64/libonnxruntime.so" := "ELF"]};
          fetched := [] |}
       "/srv/app/lib/linux_amd64/libonnxruntime.so" = true
  /\ pathExists
       {| files := {["/srv/app/lib/linux_amd64/libonnxruntime.so" := "ELF"]};
          fetched := [] |}
       (ResolveONNXRuntimeLib linuxAmd64
          {| files := {["/srv/app/lib/linux_amd64/libonnxruntime.so" := "ELF"]};
             fetched := [] |}) = true.
Proof.
  assert (In "/srv/app/lib/linux_amd64/libonnxruntime.so" (bundleCandidates linuxAmd64))
    as Hin by (vm_compute; tauto).
  assert (pathExists
            {| files := {["/srv/app/lib/linux_amd64/libonnxruntime.so" := "ELF"]};
               fetched := [] |}
            "/srv/app/lib/linux_amd64/libonnxruntime.so" = true) as Hex
    by reflexivity.
  split; [exact Hin|]. split; [exact Hex|].
  exact (proj1 (bundled_library_found linuxAmd64 _ _ Hin Hex)).
Defined.

(** X24. [candidateBaseDirs] returns one or two directories without
    repetition: the working directory, or [.] when it is unknown, and
    after it the directory of the executable when that is known and
    another one. *)
Theorem candidateBaseDirs_shape (h : Host) :
  let cwd := match os_Getwd h with Ok cwd => cwd | Err _ => "." end in
  NoDup (candidateBaseDirs h)
  /\ (candidateBaseDirs h = [cwd]
      \/ exists exe, os_Executable h = Ok exe /\ filepath_Dir h exe <> cwd
                     /\ candidateBaseDirs h = [cwd; filepath_Dir h exe]).
Proof.
  cbv zeta. unfold candidateBaseDirs. cbv zeta.
  set (cwd := match os_Getwd h with Ok cwd => cwd | Err _ => "." end).
  destruct (os_Executable h) as [exe|err].
  - destruct (bool_decide (filepath_Dir h exe = cwd)) eqn:E.
    + split; [apply NoDup_singleton | left; reflexivity].
    + apply bool_decide_eq_false in E. split.
      * apply NoDup_cons. split; [|apply NoDup_singleton].
        rewrite list_elem_of_singleton. congruence.
      * right. exists exe. repeat split; [exact E].
  - split; [apply NoDup_singleton | left; reflexivity].
Qed.

Lemma append_nil (t : string) : "" ++ t = t.
Proof. reflexivity. Qed.

Lemma append_cons (c : Ascii.ascii) (s t : string) :
  String c s ++ t = String c (s ++ t).
Proof. reflexivity. Qed.

Lemma noUnderscore_app (x y : string) :
  noUnderscore (x ++ String underscore y) = false.
Proof.
  induction x as [|c x IH]; [reflexivity|].
  rewrite append_cons. cbn [noUnderscore]. rewrite IH. apply andb_false_r.
Qed.

Lemma no_underscore_split (s t a b : string) :
  noUnderscore a = true -> noUnderscore b = true ->
  s ++ String underscore t = a ++ String underscore b -> s = a /\ t = b.
Proof.
  revert a. induction s as [|c s IH]; intros [|c' a] Ha Hb E;
    rewrite ?append_nil, ?append_cons in E.
  - injection E as E. subst. split; reflexivity.
  - injection E as E1 E2. subst c'. discriminate Ha.
  - injection E as E1 E2. rewrite <- E2, noUnderscore_app in Hb. discriminate.
  - injection E as E1 E2. subst c'. cbn [noUnderscore] in Ha.
    apply andb_prop in Ha as [_ Ha].
    destruct (IH a Ha Hb E2) as [-> ->]. split; reflexivity.
Qed.

(** X25. On every platform that has a download URL, the URL ends in the
    very name under which the path-only resolution looks for the library
    in [data/]: it is the base URL, a slash and [dataDirLibName].  The
    platforms that have one are windows/amd64, darwin/amd64, darwin/arm64
    and linux/arm64. *)
Theorem download_name_is_data_name (h : Host) :
  onnxRuntimeURL h <> "" ->
  onnxRuntimeURL h = urlONNXRuntimeBase ++ "/" ++ dataDirLibName h
  /\ In (GOOS h, GOARCH h)
        [("windows", "amd64"); ("darwin", "amd64"); ("darwin", "arm64");
         ("linux", "arm64")].
Proof.
  unfold onnxRuntimeURL. cbv zeta.
  set (key := GOOS h ++ "_" ++ GOARCH h).
  assert (forall a b, noUnderscore a = true -> noUnderscore b = true ->
            key = a ++ String underscore b -> GOOS h = a /\ GOARCH h = b) as Hsplit
    by (intros a b Ha Hb E; exact (no_underscore_split _ _ a b Ha Hb E)).
  destruct (decide (key = "windows_amd64")) as [E|N1].
  { destruct (Hsplit "windows" "amd64" eq_refl eq_refl E) as [Hos Harch].
    intros _. rewrite E, lookup_insert_eq. unfold dataDirLibName.
    rewrite Hos, Harch. split; [reflexivity | simpl; tauto]. }
  rewrite lookup_insert_ne by congruence.
  destruct (decide (key = "darwin_amd64")) as [E|N2].
  { destruct (Hsplit "darwin" "amd64" eq_refl eq_refl E) as [Hos Harch].
    intros _. rewrite E, lookup_insert_eq. unfold dataDirLibName.
    rewrite Hos, Harch. split; [reflexivity | simpl; tauto]. }
  rewrite lookup_insert_ne by congruence.
  destruct (decide (key = "darwin_arm64")) as [E|N3].
  { destruct (Hsplit "darwin" "arm64" eq_refl eq_refl E) as [Hos Harch].
    intros _. rewrite E, lookup_insert_eq. unfold dataDirLibName.
    rewrite Hos, Harch. split; [reflexivity | simpl; tauto]. }
  rewrite lookup_insert_ne by congruence.
  destruct (decide (key = "linux_arm64")) as [E|N4].
  { destruct (Hsplit "linux" "arm64" eq_refl eq_refl E) as [Hos Harch].
    intros _. rewrite E, lookup_insert_eq. unfold dataDirLibName.
    rewrite Hos, Harch. split; [reflexivity | simpl; tauto]. }
  rewrite lookup_insert_ne by congruence.
  rewrite lookup_empty. intros H. contradiction H. reflexivity.
Qed.

Lemma download_name_is_data_name_witness :
  onnxRuntimeURL darwinArm64 <> ""
  /\ onnxRuntimeURL darwinArm64
     = urlONNXRuntimeBase ++ "/" ++ dataDirLibName darwinArm64.
Proof.
  assert (onnxRuntimeURL darwinArm64 <> "") as H by (vm_compute; discriminate).
  split; [exact H | exact (proj1 (download_name_is_data_name darwinArm64 H))].
Defined.

Lemma resolved_paths (h : Host) (o : Outside) (dir : string) (w : World) :
  (forall p w1, ResolveSileroVAD h o dir w = (Ok p, w1) ->
     filepath_Abs h (filepath_Join h [dir; sileroVADName]) = Ok p)
  /\ (forall p w1, ResolveSmartTurn h o dir w = (Ok p, w1) ->
       filepath_Abs h (filepath_Join h [dir; smartTurnName]) = Ok p).
Proof.
  split; intros p w1 H.
  - exact (proj2 (thenAbs_exists h o urlSileroVAD dir sileroVADName w w1 p H)).
  - exact (proj2 (thenAbs_exists h o urlSmartTurn dir smartTurnName w w1 p H)).
Qed.

Lemma thenAbs_requests (h : Host) (o : Outside) (url dir name : string) (w : World) :
  exists sent : bool,
    fetched (snd (thenAbs h (downloadFile h o url dir name w)))
    = ((if sent then [url] else []) ++ fetched w)%list.
Proof.
  rewrite thenAbs_fetched.
  destruct (downloadFile_fetches h o url dir name w) as [E|E];
    [exists false | exists true]; exact E.
Qed.

Lemma library_requests (h : Host) (o : Outside) (dir : string) (w : World) :
  exists sent : bool,
    fetched (snd (ResolveONNXRuntimeLibWithDownload h o dir w))
    = ((if sent then [onnxRuntimeURL h] else []) ++ fetched w)%list.
Proof.
  unfold ResolveONNXRuntimeLibWithDownload. cbv zeta.
  destruct (bool_decide (onnxRuntimeURL h = "")); [exists false; reflexivity|].
  apply (thenAbs_requests h o (onnxRuntimeURL h) dir
           (filepath_Base h (onnxRuntimeURL h)) w).
Qed.

(** X26. The example program resolves the Silero model, the Smart-Turn
    model and the runtime library in this order and stops at the first
    failure.  One run sends three requests at most, one per target and in
    that order; when the first resolution fails nothing else is attempted;
    and when the run succeeds the library path is not empty and the two
    model paths are what [filepath.Abs] makes of the files in [models/]. *)
Theorem resolveAll_in_order (h : Host) (o : Outside) (w : World) :
  let run := resolveAll h o w in
  (exists a b c : bool,
     fetched (snd run)
     = ((if c then [onnxRuntimeURL h] else [])
        ++ (if b then [urlSmartTurn] else [])
        ++ (if a then [urlSileroVAD] else []) ++ fetched w)%list)
  /\ (forall err w1, ResolveSileroVAD h o ModelsDir w = (Err err, w1) ->
        snd run = w1 /\ exists msg, fst run = Err msg)
  /\ (forall p1 p2 p3 w', run = (Ok (p1, p2, p3), w') ->
        p3 <> ""
        /\ filepath_Abs h (filepath_Join h [ModelsDir; sileroVADName]) = Ok p1
        /\ filepath_Abs h (filepath_Join h [ModelsDir; smartTurnName]) = Ok p2).
Proof.
  cbv zeta. unfold resolveAll.
  destruct (thenAbs_requests h o urlSileroVAD ModelsDir sileroVADName w) as [a Ha].
  change (thenAbs h (downloadFile h o urlSileroVAD ModelsDir sileroVADName w))
    with (ResolveSileroVAD h o ModelsDir w) in Ha.
  pose proof (proj1 (resolved_paths h o ModelsDir w)) as Hp1.
  destruct (ResolveSileroVAD h o ModelsDir w) as [[p1|e1] w1] eqn:E1; cbn [snd] in Ha.
  2:{ split; [exists a, false, false; exact Ha|]. split.
      - intros err w1' [= <- <-]. split; [reflexivity | eexists; reflexivity].
      - intros ? ? ? ? [=]. }
  destruct (thenAbs_requests h o urlSmartTurn ModelsDir smartTurnName w1) as [b Hb].
  change (thenAbs h (downloadFile h o urlSmartTurn ModelsDir smartTurnName w1))
    with (ResolveSmartTurn h o ModelsDir w1) in Hb.
  pose proof (proj2 (resolved_paths h o ModelsDir w1)) as Hp2.
  destruct (ResolveSmartTurn h o ModelsDir w1) as [[p2|e2] w2] eqn:E2; cbn [snd] in Hb.
  2:{ split; [exists a, b, false; cbn [snd]; rewrite Hb, Ha; reflexivity|]. split.
      - intros ? ? [=].
      - intros ? ? ? ? [=]. }
  destruct (library_requests h o ModelsDir w2) as [c Hc].
  destruct (ResolveONNXRuntimeLibWithDownload h o ModelsDir w2) as [[p3|e3] w3] eqn:E3;
    cbn [snd] in Hc.
  2:{ split; [exists a, b, c; cbn [snd]; rewrite Hc, Hb, Ha; reflexivity|]. split.
      - intros ? ? [=].
      - intros ? ? ? ? [=]. }
  assert (exists a b c : bool,
            fetched w3
            = ((if c then [onnxRuntimeURL h] else [])
               ++ (if b then [urlSmartTurn] else [])
               ++ (if a then [urlSileroVAD] else []) ++ fetched w)%list) as Hreq
    by (exists a, b, c; rewrite Hc, Hb, Ha; reflexivity).
  destruct (bool_decide (p3 = "")) eqn:E4; cbn [snd].
  - split; [exact Hreq|]. split; [intros ? ? [=] | intros ? ? ? ? [=]].
  - split; [exact Hreq|]. split; [intros ? ? [=]|].
    intros q1 q2 q3 w' [= <- <- <- <-]. apply bool_decide_eq_false in E4.
    split; [exact E4|]. split; [exact (Hp1 _ _ eq_refl) | exact (Hp2 _ _ eq_refl)].
Qed.

Lemma thenAbs_snd (h : Host) (r : result string * World) :
  snd (thenAbs h r) = snd r.
Proof. destruct r as [[p|e] w]; reflexivity. Qed.

Lemma thenAbs_present (h : Host) (o : Outside) (url dir name : string) (w : World) :
  pathExists w (filepath_Join h [dir; name]) = true ->
  thenAbs h (downloadFile h o url dir name w)
  = (filepath_Abs h (filepath_Join h [dir; name]), w).
Proof.
  intros Hex. rewrite (downloadFile_exists h o url dir name w Hex). reflexivity.
Qed.

Lemma thenAbs_keeps (h : Host) (o : Outside) (url dir name : string) (w : World)
    (q : string) :
  q <> filepath_Join h [dir; name] ->
  q <> filepath_Join h [dir; name] ++ ".tmp" ->
  pathExists w q = true ->
  pathExists (snd (thenAbs h (downloadFile h o url dir name w))) q = true.
Proof.
  intros H1 H2 Hex. rewrite thenAbs_snd. unfold pathExists in *.
  rewrite (downloadFile_frame h o url dir name w q H1 H2). exact Hex.
Qed.

(** X27. A library downloaded into the [data/] directory of the working
    directory is what the path-only resolution finds afterwards, on a host
    whose [filepath.Base] gives the last component of the URL and whose
    [filepath.Join] joins in steps as it joins at once. *)
Theorem downloaded_library_is_found (h : Host) (o : Outside) (w w1 : World)
    (cwd p : string) :
  os_Getwd h = Ok cwd -> cwd <> "" ->
  onnxRuntimeURL h <> "" ->
  filepath_Base h (onnxRuntimeURL h) = dataDirLibName h ->
  filepath_Join h [filepath_Join h [cwd; DataDir]; dataDirLibName h]
  = filepath_Join h [cwd; DataDir; dataDirLibName h] ->
  ResolveONNXRuntimeLibWithDownload h o (filepath_Join h [cwd; DataDir]) w
  = (Ok p, w1) ->
  ResolveONNXRuntimeLib h w1 = filepath_Join h [cwd; DataDir; dataDirLibName h].
Proof.
  intros Hcwd Hne Hurl Hbase Hjoin Hres.
  unfold ResolveONNXRuntimeLibWithDownload in Hres. cbv zeta in Hres.
  rewrite bool_decide_false in Hres by exact Hurl.
  apply (thenAbs_exists h o (onnxRuntimeURL h)) in Hres as [Hex _].
  rewrite Hbase, Hjoin in Hex.
  unfold ResolveONNXRuntimeLib. cbv zeta.
  assert (exists rest, candidateBaseDirs h = cwd :: rest) as [rest ->].
  { unfold candidateBaseDirs. cbv zeta. rewrite Hcwd.
    destruct (os_Executable h) as [exe|err]; [|eexists; reflexivity].
    destruct (bool_decide (filepath_Dir h exe = cwd)); eexists; reflexivity. }
  cbn [scanData]. rewrite bool_decide_false by exact Hne.
  rewrite Hex. reflexivity.
Qed.

Lemma downloaded_library_is_found_witness :
  ResolveONNXRuntimeLibWithDownload darwinArm64 (answering complete200)
    "/Users/me/app/data" emptyWorld
  = (Ok "/Users/me/app/data/onnxruntime_arm64.dylib",
     snd (ResolveONNXRuntimeLibWithDownload darwinArm64 (answering complete200)
            "/Users/me/app/data" emptyWorld))
  /\ ResolveONNXRuntimeLib darwinArm64
       (snd (ResolveONNXRuntimeLibWithDownload darwinArm64 (answering complete200)
               "/Users/me/app/data" emptyWorld))
     = "/Users/me/app/data/onnxruntime_arm64.dylib".
Proof.
  assert (ResolveONNXRuntimeLibWithDownload darwinArm64 (answering complete200)
            "/Users/me/app/data" emptyWorld
          = (Ok "/Users/me/app/data/onnxruntime_arm64.dylib",
             snd (ResolveONNXRuntimeLibWithDownload darwinArm64
                    (answering complete200) "/Users/me/app/data" emptyWorld)))
    as Hres by (vm_compute; reflexivity).
  split; [exact Hres|].
  apply (downloaded_library_is_found darwinArm64 (answering complete200)
           emptyWorld _ "/Users/me/app"
           "/Users/me/app/data/onnxruntime_arm64.dylib").
  - reflexivity.
  - discriminate.
  - vm_compute. discriminate.
  - vm_compute. reflexivity.
  - vm_compute. reflexivity.
  - exact Hres.
Defined.

(** X28. A second run of the example program after one that succeeded
    sends no request and changes nothing: whatever happens outside, it
    ends with the same three paths and leaves the disk as it found it.
    The three destinations and their temporary names are taken to be
    different paths, as they are when [filepath.Join] joins with a
    separator. *)
Theorem second_run_sends_nothing (h : Host) (o1 o2 : Outside) (w w' : World)
    (p1 p2 p3 : string) :
  let silero := filepath_Join h [ModelsDir; sileroVADName] in
  let smart := filepath_Join h [ModelsDir; smartTurnName] in
  let lib := filepath_Join h [ModelsDir; filepath_Base h (onnxRuntimeURL h)] in
  silero <> smart -> silero <> smart ++ ".tmp" ->
  silero <> lib -> silero <> lib ++ ".tmp" ->
  smart <> lib -> smart <> lib ++ ".tmp" ->
  resolveAll h o1 w = (Ok (p1, p2, p3), w') ->
  resolveAll h o2 w' = (Ok (p1, p2, p3), w').
Proof.
  intros silero smart lib N1 N2 N3 N4 N5 N6 Hrun.
  unfold resolveAll in Hrun.
  destruct (ResolveSileroVAD h o1 ModelsDir w) as [[q1|e1] w1] eqn:E1;
    [|discriminate].
  destruct (ResolveSmartTurn h o1 ModelsDir w1) as [[q2|e2] w2] eqn:E2;
    [|discriminate].
  destruct (ResolveONNXRuntimeLibWithDownload h o1 ModelsDir w2)
    as [[q3|e3] w3] eqn:E3; [|discriminate].
  destruct (bool_decide (q3 = "")) eqn:E4; [discriminate|].
  injection Hrun as -> -> -> ->.
  destruct (thenAbs_exists h o1 _ _ _ _ _ _ E1) as [X1 A1].
  destruct (thenAbs_exists h o1 _ _ _ _ _ _ E2) as [X2 A2].
  fold silero in X1, A1. fold smart in X2, A2.
  assert (pathExists w2 silero = true) as X1'.
  { pose proof (thenAbs_keeps h o1 urlSmartTurn ModelsDir smartTurnName w1 silero
                  N1 N2 X1) as K.
    change (thenAbs h (downloadFile h o1 urlSmartTurn ModelsDir smartTurnName w1))
      with (ResolveSmartTurn h o1 ModelsDir w1) in K.
    rewrite E2 in K. exact K. }
  assert (pathExists w' silero = true /\ pathExists w' smart = true
          /\ ResolveONNXRuntimeLibWithDownload h o2 ModelsDir w' = (Ok p3, w'))
    as (Y1 & Y2 & Y3).
  { unfold ResolveONNXRuntimeLibWithDownload in E3 |- *. cbv zeta in E3 |- *.
    destruct (bool_decide (onnxRuntimeURL h = "")).
    - injection E3 as <- <-. split; [exact X1'|]. split; [exact X2 | reflexivity].
    - pose proof (thenAbs_keeps h o1 (onnxRuntimeURL h) ModelsDir
                    (filepath_Base h (onnxRuntimeURL h)) w2 silero N3 N4 X1') as K1.
      pose proof (thenAbs_keeps h o1 (onnxRuntimeURL h) ModelsDir
                    (filepath_Base h (onnxRuntimeURL h)) w2 smart N5 N6 X2) as K2.
      destruct (thenAbs_exists h o1 _ _ _ _ _ _ E3) as [X3 A3].
      change (match downloadFile h o1 (onnxRuntimeURL h) ModelsDir
                      (filepath_Base h (onnxRuntimeURL h)) w2 with
              | (Ok path, w0) => (filepath_Abs h path, w0)
              | (Err err, w0) => (Err err, w0)
              end)
        with (thenAbs h (downloadFile h o1 (onnxRuntimeURL h) ModelsDir
                           (filepath_Base h (onnxRuntimeURL h)) w2)) in E3.
      rewrite E3 in K1, K2. cbn [snd] in K1, K2.
      split; [exact K1|]. split; [exact K2|].
      change (thenAbs h (downloadFile h o2 (onnxRuntimeURL h) ModelsDir
                           (filepath_Base h (onnxRuntimeURL h)) w')
              = (Ok p3, w')).
      rewrite (thenAbs_present h o2 _ _ _ _ X3), A3. reflexivity. }
  unfold resolveAll.
  change (ResolveSileroVAD h o2 ModelsDir w')
    with (thenAbs h (downloadFile h o2 urlSileroVAD ModelsDir sileroVADName w')).
  rewrite (thenAbs_present h o2 _ _ _ _ Y1). fold silero. rewrite A1.
  change (ResolveSmartTurn h o2 ModelsDir w')
    with (thenAbs h (downloadFile h o2 urlSmartTurn ModelsDir smartTurnName w')).
  rewrite (thenAbs_present h o2 _ _ _ _ Y2). fold smart. rewrite A2.
  rewrite Y3, E4. reflexivity.
Qed.

Lemma second_run_sends_nothing_witness :
  resolveAll darwinArm64 (answering complete200) emptyWorld
  = (Ok ("/Users/me/app/models/silero_vad.onnx",
         "/Users/me/app/models/smart-turn-v3.2-cpu.onnx",
         "/Users/me/app/models/onnxruntime_arm64.dylib"),
     snd (resolveAll darwinArm64 (answering complete200) emptyWorld))
  /\ resolveAll darwinArm64 unreachable
       (snd (resolveAll darwinArm64 (answering complete200) emptyWorld))
     = (Ok ("/Users/me/app/models/silero_vad.onnx",
            "/Users/me/app/models/smart-turn-v3.2-cpu.onnx",
            "/Users/me/app/models/onnxruntime_arm64.dylib"),
        snd (resolveAll darwinArm64 (answering complete200) emptyWorld)).
Proof.
  assert (resolveAll darwinArm64 (answering complete200) emptyWorld
          = (Ok ("/Users/me/app/models/silero_vad.onnx",
                 "/Users/me/app/models/smart-turn-v3.2-cpu.onnx",
                 "/Users/me/app/models/onnxruntime_arm64.dylib"),
             snd (resolveAll darwinArm64 (answering complete200) emptyWorld)))
    as Hrun by (vm_compute; reflexivity).
  split; [exact Hrun|].
  apply (second_run_sends_nothing darwinArm64 (answering complete200) unreachable
           emptyWorld); [vm_compute; discriminate.. | exact Hrun].
Defined.

End Extras.
